(** * bou: job coordination and hook pipeline

    A shallow embedding of the snapshot coordinator ([SnapshotManager],
    [Cache], [is_pid_alive] in [src/bou/contrib.py]), of the hook stages
    declared in [src/bou/fpi.py] and of the two drivers [build_handler] and
    [release_handler] of [src/bou/cli.py].

    - The SQLite store is a record of three tables, each a list of rows in
      insertion order.  Every [Db.execute_and_fetchone] call of the source
      runs one SQL statement in one transaction, so a call is one function
      from the store to the new store and the fetched row; concurrent callers
      are an arbitrary sequence of such calls.
    - A driver is a function from the store to a run: the outcome (a value or
      a Python exception, [sys.exit] included), the store it leaves and the
      list of events (hook invocations and coordinator calls) in order.  A run
      is that of one process with no other process writing in between; the
      branches for a lost race are kept as the source has them.
    - What a driver reads from outside the store (pid, clock, [os.kill], git,
      the file system, the user's build system) is a record [Env] of values
      and oracles.  The user's hook implementations are functions on the
      [cache] table, the only part of the store the [Cache] handle they are
      given reaches.  Logging is not modelled. *)

From stdpp Require Import base decidable option list strings gmap.
From Stdlib Require Import ZArith Lia QArith.

Local Open Scope Z_scope.

(** ** Data model (contrib.py:31-44, 180-195, 380-386) *)

Inductive ProcessAction := BUILD | RELEASE.
Inductive ProcessState := SCHEDULED | RUNNING | COMPLETE.

#[global] Instance ProcessAction_eq_dec : EqDecision ProcessAction.
Proof. solve_decision. Defined.
#[global] Instance ProcessState_eq_dec : EqDecision ProcessState.
Proof. solve_decision. Defined.

(** A [datetime.datetime] value, as a count of microseconds since the epoch. *)
Definition datetime := Z.

(** One row of the [snapshot] (and [snapshot_history]) table.  The columns
    the [INSERT] of [create] does not list are [NULL] in a fresh row.  The two
    last columns are the pair the design document calls [state_since] and
    [completed_at]: [efd] is written by [create], [complete] and
    [schedule_for_release]; [etd] is declared [NULL]-able and never written. *)
Record Snapshot := mkSnapshot {
  ref : string;
  ref_sha : string;
  action : ProcessAction;
  state : ProcessState;
  created_at : datetime;
  created_by : string;
  updated_at : option datetime;
  updated_by : option string;
  pid : Z;
  efd : datetime;
  etd : option datetime
}.

(** One row of the [cache] table: the columns [key] and [value]. *)
Record CacheObject := mkCacheObject {
  key : string;
  value : string
}.

(** The class that contrib.py:380-386 binds to the name [CacheObject]:
    [t.NamedTuple("Object", fields=[("key", str), ("value", str)])].  The
    field list is the second positional parameter of [NamedTuple]; given by
    keyword, [fields=...] declares one field, named [fields].  An instance
    holds the value of that field. *)
Record Object := mkObject {
  fields : string
}.

(** The three tables of [Db.init_with_defaults] (contrib.py:59-95). *)
Record Db := mkDb {
  snapshot : list Snapshot;
  snapshot_history : list Snapshot;
  cache : list CacheObject
}.

Definition empty_db : Db := mkDb [] [] [].

(** [ref_sha TEXT PRIMARY KEY]: no two rows of [snapshot] share a [ref_sha]. *)
Definition pk_unique (tbl : list Snapshot) : Prop := NoDup (ref_sha <$> tbl).

(** [CONSTRAINT ucon_cache UNIQUE(key)]. *)
Definition ucon_cache (tbl : list CacheObject) : Prop := NoDup (key <$> tbl).

(** ** SQL statements as list functions *)

Module Sql.

(** [SELECT * FROM tbl WHERE P]. *)
Definition select {A} (P : A → Prop) `{∀ r, Decision (P r)}
    (tbl : list A) : list A :=
  filter P tbl.

(** [UPDATE tbl SET f WHERE P RETURNING *]: the new table and the rows
    the statement returns (the updated rows). *)
Definition update {A} (P : A → Prop) `{∀ r, Decision (P r)}
    (f : A → A) (tbl : list A) : list A * list A :=
  ((λ r, if decide (P r) then f r else r) <$> tbl, f <$> filter P tbl).

(** [cursor.fetchone()]: the first row of the result, or [None]. *)
Definition fetchone {A} (rows : list A) : option A := head rows.

End Sql.

(** ** SnapshotManager (contrib.py:198-377) *)

Module SnapshotManager.

(** The [WHERE] clause shared by the three conditional updates:
    [ref_sha = :ref_sha AND state = :state]. *)
Definition cas_where (k : string) (st : ProcessState) (r : Snapshot) : Prop :=
  ref_sha r = k ∧ state r = st.

#[global] Instance cas_where_dec k st r : Decision (cas_where k st r).
Proof. unfold cas_where. apply _. Defined.

(** contrib.py:207-217 *)
Definition get (k : string) (d : Db) : option Snapshot :=
  Sql.fetchone (Sql.select (λ r, ref_sha r = k) (snapshot d)).

(** The [SET] clause of [adopt_into_running_state] (contrib.py:230-235). *)
Definition adopt_set (a : ProcessAction) (now : datetime) (user : string)
    (p : Z) (r : Snapshot) : Snapshot :=
  {| ref := ref r; ref_sha := ref_sha r;
     action := a; state := RUNNING;
     created_at := created_at r; created_by := created_by r;
     updated_at := Some now; updated_by := Some user;
     pid := p; efd := efd r; etd := etd r |}.

(** contrib.py:219-255 *)
Definition adopt_into_running_state (s : Snapshot) (a : ProcessAction)
    (current_datetime : datetime) (user : string) (p : Z) (d : Db)
    : Db * option Snapshot :=
  let '(tbl, rows) :=
    Sql.update (cas_where (ref_sha s) (state s))
               (adopt_set a current_datetime user p) (snapshot d) in
  (mkDb tbl (snapshot_history d) (cache d), Sql.fetchone rows).

(** The [SET] clause of [complete] (contrib.py:266-270). *)
Definition complete_set (now : datetime) (user : string) (r : Snapshot)
    : Snapshot :=
  {| ref := ref r; ref_sha := ref_sha r;
     action := action r; state := COMPLETE;
     created_at := created_at r; created_by := created_by r;
     updated_at := Some now; updated_by := Some user;
     pid := pid r; efd := now; etd := etd r |}.

(** contrib.py:257-289 *)
Definition complete (s : Snapshot) (current_datetime : datetime)
    (user : string) (d : Db) : Db * option Snapshot :=
  let '(tbl, rows) :=
    Sql.update (cas_where (ref_sha s) (state s))
               (complete_set current_datetime user) (snapshot d) in
  (mkDb tbl (snapshot_history d) (cache d), Sql.fetchone rows).

(** The [SET] clause of [schedule_for_release] (contrib.py:300-305). *)
Definition schedule_set (now : datetime) (user : string) (r : Snapshot)
    : Snapshot :=
  {| ref := ref r; ref_sha := ref_sha r;
     action := RELEASE; state := SCHEDULED;
     created_at := created_at r; created_by := created_by r;
     updated_at := Some now; updated_by := Some user;
     pid := pid r; efd := now; etd := etd r |}.

(** contrib.py:291-325 *)
Definition schedule_for_release (s : Snapshot) (current_datetime : datetime)
    (user : string) (d : Db) : Db * option Snapshot :=
  let '(tbl, rows) :=
    Sql.update (cas_where (ref_sha s) (state s))
               (schedule_set current_datetime user) (snapshot d) in
  (mkDb tbl (snapshot_history d) (cache d), Sql.fetchone rows).

(** The row the [INSERT ... SELECT] of [create] builds (contrib.py:339-357). *)
Definition new_row (rf k : string) (a : ProcessAction) (st : ProcessState)
    (now : datetime) (user : string) (p : Z) : Snapshot :=
  {| ref := rf; ref_sha := k; action := a; state := st;
     created_at := now; created_by := user;
     updated_at := None; updated_by := None;
     pid := p; efd := now; etd := None |}.

(** contrib.py:327-377: the [SELECT] feeding the [INSERT] yields its one row
    only [WHERE NOT EXISTS (SELECT * FROM snapshot WHERE ref_sha = :ref_sha)]. *)
Definition create (rf k : string) (a : ProcessAction) (st : ProcessState)
    (current_datetime : datetime) (user : string) (p : Z) (d : Db)
    : Db * option Snapshot :=
  match Sql.select (λ r, ref_sha r = k) (snapshot d) with
  | [] =>
      let row := new_row rf k a st current_datetime user p in
      (mkDb (snapshot d ++ [row]) (snapshot_history d) (cache d),
       Sql.fetchone [row])
  | _ :: _ => (d, Sql.fetchone [])
  end.

End SnapshotManager.


(** ** Exceptions *)

(** The Python exceptions the modelled code raises or lets through.
    [sys.exit(n)] raises [SystemExit n]. *)
Inductive exception :=
  | SystemExit (code : Z)
  | OSError (errno : Z)
  | IntegrityError
  | ConfigError (msg : string)
  | BuildError (msg : string)
  | TypeError
  | KeyError (k : string)
  | AttributeError
  | OtherError (name : string).

(** The result of a call that returns a value or raises. *)
Inductive Outcome (A : Type) :=
  | Return (a : A)
  | Raise (e : exception).
Arguments Return {A} a.
Arguments Raise {A} e.

(** ** Cache (contrib.py:110-146, 380-409) *)

Module Cache.

(** A call of [CacheObject] with keyword arguments: the constructor of
    [Object] takes the keyword [fields] and no other; a call without it, or
    with another keyword beside it, raises [TypeError]. *)
Definition Object_new (kwargs : gmap string string) : Outcome Object :=
  match kwargs !! "fields" with
  | Some v =>
      if decide (delete "fields" kwargs = ∅) then Return (mkObject v)
      else Raise TypeError
  | None => Raise TypeError
  end.

(** [cursor.description] of a statement that returns rows of [cache], and
    such a row as the record the cursor hands to the row factory. *)
Definition columns : list string := ["key"; "value"].
Definition record (row : CacheObject) : list string := [key row; value row].

(** contrib.py:110-118: [model_class] called with the keyword arguments
    [dict(zip(names, record))]; in a [dict] built from pairs the last pair of
    a name is the one kept. *)
Definition row_factory_wrapper {T}
    (model_class : gmap string string → Outcome T)
    (names rec : list string) : Outcome T :=
  model_class (list_to_map (reverse (zip names rec))).

(** [with self.conn:] commits when its block returns and rolls back when the
    block raises. *)
Definition with_conn {T} (block : Db → Db * Outcome T) (d : Db)
    : Db * Outcome T :=
  match block d with
  | (d', Return a) => (d', Return a)
  | (_, Raise e) => (d, Raise e)
  end.

(** [Db.execute_and_fetchone] (contrib.py:132-146) for a statement that
    returns rows of [cache]: inside the [with] block the statement is
    executed and [fetchone] passes the first row, when there is one, through
    the row factory. *)
Definition execute_and_fetchone {T}
    (statement : Db → Db * Outcome (list CacheObject))
    (model_class : gmap string string → Outcome T)
    : Db → Db * Outcome (option T) :=
  with_conn (λ d,
    match statement d with
    | (d', Return rows) =>
        match Sql.fetchone rows with
        | None => (d', Return None)
        | Some row =>
            match row_factory_wrapper model_class columns (record row) with
            | Return instance => (d', Return (Some instance))
            | Raise e => (d', Raise e)
            end
        end
    | (d', Raise e) => (d', Raise e)
    end).

(** contrib.py:393-398: [SELECT * FROM cache WHERE key = :key]. *)
Definition get (k : string) : Db → Db * Outcome (option Object) :=
  execute_and_fetchone
    (λ d, (d, Return (Sql.select (λ o, key o = k) (cache d))))
    Object_new.

(** contrib.py:400-409: a plain [INSERT INTO cache VALUES (:key, :value)
    RETURNING *].  The table's [UNIQUE(key)] constraint makes SQLite reject
    the statement with [sqlite3.IntegrityError] when the key is already
    stored.  The column [value] is declared [JSON], which gives it NUMERIC
    affinity: a text that reads as a number is stored, and returned, as that
    number.  The row factory refuses the returned row by its column names,
    whatever it holds, and the insertion is then rolled back, so the form
    the value is stored in is not told apart here. *)
Definition set (k v : string) : Db → Db * Outcome (option Object) :=
  execute_and_fetchone
    (λ d,
       match Sql.select (λ o, key o = k) (cache d) with
       | [] =>
           let row := mkCacheObject k v in
           (mkDb (snapshot d) (snapshot_history d) (cache d ++ [row]),
            Return [row])
       | _ :: _ => (d, Raise IntegrityError)
       end)
    Object_new.

End Cache.

(** ** Liveness probe (contrib.py:508-523) *)

Definition ESRCH : Z := 3.
Definition EPERM : Z := 1.

(** [os_kill p] is what [os.kill(p, 0)] does: [None] when the call returns,
    [Some e] when it raises [e]. *)
Definition is_pid_alive (os_kill : Z → option exception) (p : Z)
    : Outcome bool :=
  if decide (p ≤ 0) then Return false
  else
    match os_kill p with
    | None => Return true
    | Some (OSError errno) =>
        if decide (errno = ESRCH) then Return false
        else if decide (errno = EPERM) then Return true
        else Raise (OSError errno)
    | Some e => Raise e
    end.

(** ** Hook pipeline (fpi.py) *)

Inductive Stage :=
  | configure | pre_build | build | post_build
  | pre_release | release | post_release.

(** The provider of a hook implementation: the built-in [BuildPlugin] or the
    [i]-th implementation of the user's build system, in call order. *)
Inductive Who := Base | Plugin (i : nat).

(** What a run does that the claims speak about, in order. *)
Inductive Event :=
  | EvCall (st : Stage) (w : Who)
  | EvRaise (st : Stage) (w : Who) (e : exception)
  | EvCreate
  | EvAdopt
  | EvComplete
  | EvSchedule.

(** Values a [Config] dictionary holds. *)
Inductive PyValue :=
  | PyPath (p : string)
  | PyStr (s : string)
  | PyNone.

(** [Config] (fpi.py:22-31) is a [UserDict]. *)
Abbreviation Config := (gmap string PyValue).

(** A user hook implementation gets the [Cache] handle: it reads and writes
    the [cache] table, and returns or raises. *)
Inductive HookResult (A : Type) :=
  | Returns (a : A) (c : list CacheObject)
  | Raises (e : exception) (c : list CacheObject).
Arguments Returns {A} a c.
Arguments Raises {A} e c.

Definition Hook (A : Type) := list CacheObject → HookResult A.

(** ** Runs: store passing, exceptions and the events of the run *)

Record Run (A : Type) := mkRun {
  outcome : Outcome A;
  final : Db;
  events : list Event
}.
Arguments mkRun {A} outcome final events.
Arguments outcome {A} r.
Arguments final {A} r.
Arguments events {A} r.

Definition M (A : Type) := Db → Run A.

Definition ret {A} (a : A) : M A := λ d, mkRun (Return a) d [].

Definition raise {A} (e : exception) : M A := λ d, mkRun (Raise e) d [].

Definition bind {A B} (m : M A) (k : A → M B) : M B := λ d,
  let r := m d in
  match outcome r with
  | Return a =>
      let r' := k a (final r) in
      mkRun (outcome r') (final r') (events r ++ events r')
  | Raise e => mkRun (Raise e) (final r) (events r)
  end.

Notation "'let*' x ':=' m 'in' k" := (bind m (λ x, k))
  (at level 10, x name, m at level 100, k at level 200, only parsing).

(** [sys.exit(code)] *)
Definition sys_exit {A} (code : Z) : M A := raise (SystemExit code).

(** [if c: body] with nothing after it in the branch. *)
Definition when (c : bool) (body : M unit) : M unit :=
  if c then body else ret tt.

(** A call that touches nothing in the store. *)
Definition pure_call {A} (o : Outcome A) : M A := λ d, mkRun o d [].

(** A [SnapshotManager] call, with the event that records it. *)
Definition db_call {A} (ev : Event) (f : Db → Db * A) : M A := λ d,
  let '(d', a) := f d in mkRun (Return a) d' [ev].

Definition db_read {A} (f : Db → A) : M A := λ d, mkRun (Return (f d)) d [].

(** One hook implementation called by pluggy. *)
Definition call_hook {A} (st : Stage) (w : Who) (h : Hook A) : M A := λ d,
  match h (cache d) with
  | Returns a c =>
      mkRun (Return a) (mkDb (snapshot d) (snapshot_history d) c)
            [EvCall st w]
  | Raises e c =>
      mkRun (Raise e) (mkDb (snapshot d) (snapshot_history d) c)
            [EvCall st w; EvRaise st w e]
  end.

(** The user's implementations of a broadcast stage, one after the other;
    the first to raise ends the call. *)
Fixpoint call_impls (st : Stage) (i : nat) (hs : list (Hook unit)) : M unit :=
  match hs with
  | [] => ret tt
  | h :: hs' =>
      let* _ := call_hook st (Plugin i) h in
      call_impls st (S i) hs'
  end.

(** The base implementations of the broadcast stages (fpi.py:156-244) are
    registered [tryfirst] and only log. *)
Definition base_noop (st : Stage) : M unit := λ d,
  mkRun (Return tt) d [EvCall st Base].

(** [pm.hook.<stage>(...)] for a broadcast stage. *)
Definition hook_broadcast (st : Stage) (hs : list (Hook unit)) : M unit :=
  let* _ := base_noop st in
  call_impls st 0 hs.

(** A [firstresult] hook: the first result that is not [None]. *)
Fixpoint first_result (i : nat) (hs : list (Hook (option Config)))
    : M (option Config) :=
  match hs with
  | [] => ret None
  | h :: hs' =>
      let* r := call_hook configure (Plugin i) h in
      match r with
      | Some c => ret (Some c)
      | None => first_result (S i) hs'
      end
  end.

(** The body of the wrapper [BuildPlugin.configure] after its [yield]
    (fpi.py:143-154).  With no result at all, [config] is [None] and the
    membership test raises [TypeError]. *)
Definition validate_config (r : option Config) : Outcome Config :=
  match r with
  | None => Raise TypeError
  | Some config =>
      match config !! "build_path" with
      | None => Raise (ConfigError "build_path is a required key")
      | Some (PyPath _) => Return config
      | Some _ =>
          Raise (ConfigError "build_path should be of type pathlib.Path")
      end
  end.

(** [pm.hook.configure(...)]: the wrapper of the base plugin around the
    first result of the user's implementations (fpi.py:35-44, 132-154). *)
Definition hook_configure (hs : list (Hook (option Config))) : M Config :=
  λ d,
  let r := first_result 0 hs d in
  match outcome r with
  | Return res =>
      match validate_config res with
      | Return config =>
          mkRun (Return config) (final r) (EvCall configure Base :: events r)
      | Raise e =>
          mkRun (Raise e) (final r)
                (EvCall configure Base :: events r ++ [EvRaise configure Base e])
      end
  | Raise e => mkRun (Raise e) (final r) (EvCall configure Base :: events r)
  end.

(** [config["build_path"]] *)
Definition config_getitem (config : Config) (k : string) : Outcome PyValue :=
  match config !! k with
  | Some v => Return v
  | None => Raise (KeyError k)
  end.

(** ** The drivers (cli.py:214-550) *)

(** What a driver run reads from outside the store: the process, the clock,
    git, the file system and the user's build system.  [Path.exists()]
    returns a boolean, or lets through the [OSError] of its [stat] call when
    that is none of the errors it takes for a missing path. *)
Record Env := mkEnv {
  os_getpid : Z;
  datetime_now : datetime;
  os_kill : Z → option exception;
  get_ref_sha : string → Outcome string;
  repo_path_exists : Outcome bool;
  get_is_bare_repo : Outcome bool;
  builds_path_exists : Outcome bool;
  load_build_system : Outcome unit;
  configure_impls : list (Hook (option Config));
  stage_impls : Stage → list (Config → Hook unit);
  path_exists : string → Outcome bool
}.

(** The command line of [bou build] and [bou release] (cli.py:689-704). *)
Record Args := mkArgs {
  arg_ref : string;
  arg_user : string;
  arg_schedule_release : bool
}.

Section Drivers.

Variable env : Env.
Variable args : Args.

(** cli.py:224-254 and 399-429: resolve the ref, check the repository and the
    builds path, load the build system.  The value is [ref_sha]. *)
Definition preamble : M string :=
  let* sha := pure_call (get_ref_sha env (arg_ref args)) in
  let* repo_exists := pure_call (repo_path_exists env) in
  let* _ := when (negb repo_exists) (sys_exit 1) in
  let* git_repo_is_bare := pure_call (get_is_bare_repo env) in
  let* _ := when (negb git_repo_is_bare) (sys_exit 1) in
  let* builds_exists := pure_call (builds_path_exists env) in
  let* _ := when (negb builds_exists) (sys_exit 1) in
  let* _ := pure_call (load_build_system env) in
  ret sha.

(** cli.py:256-308 and 431-483, the same text in both drivers up to the
    action given to [adopt_into_running_state]: look the snapshot up, create
    it (always with [ProcessAction.BUILD]) when there is none, and adopt it
    when its pid is another, dead process. *)
Definition acquire (sha : string) (adopt_action : ProcessAction) : M Snapshot :=
  let pid_ := os_getpid env in
  let* found := db_read (SnapshotManager.get sha) in
  let* snap :=
    match found with
    | Some s => ret s
    | None =>
        let* created :=
          db_call EvCreate
            (SnapshotManager.create (arg_ref args) sha BUILD RUNNING
               (datetime_now env) (arg_user args) pid_) in
        match created with
        | Some s => ret s
        | None => sys_exit 0
        end
    end in
  let* snapshot_pid_is_alive := pure_call (is_pid_alive (os_kill env) (pid snap)) in
  if bool_decide (pid_ ≠ pid snap) && snapshot_pid_is_alive then sys_exit 0
  else if bool_decide (pid_ ≠ pid snap) && negb snapshot_pid_is_alive then
    let* adopted :=
      db_call EvAdopt
        (SnapshotManager.adopt_into_running_state snap adopt_action
           (datetime_now env) (arg_user args) pid_) in
    match adopted with
    | Some s => ret s
    | None => sys_exit 0
    end
  else ret snap.

(** A broadcast stage with the keyword arguments of the run. *)
Definition run_stage (st : Stage) (config : Config) : M unit :=
  hook_broadcast st ((λ h, h config) <$> stage_impls env st).

(** cli.py:318-362 *)
Definition build_pipeline : M unit :=
  let* config := hook_configure (configure_impls env) in
  let* build_path := pure_call (config_getitem config "build_path") in
  let* _ := run_stage pre_build config in
  let* _ := run_stage build config in
  run_stage post_build config.

(** cli.py:214-379 *)
Definition build_handler : M unit :=
  let* sha := preamble in
  let* snap := acquire sha BUILD in
  let* _ := when (bool_decide (action snap ≠ BUILD)) (sys_exit 0) in
  let* _ := build_pipeline in
  if negb (arg_schedule_release args) then
    let* _ :=
      db_call EvComplete
        (SnapshotManager.complete snap (datetime_now env) (arg_user args)) in
    sys_exit 0
  else
    let* _ :=
      db_call EvSchedule
        (SnapshotManager.schedule_for_release snap (datetime_now env)
           (arg_user args)) in
    ret tt.

(** [build_path.exists()] *)
Definition py_path_exists (v : PyValue) : Outcome bool :=
  match v with
  | PyPath p => path_exists env p
  | _ => Raise AttributeError
  end.

(** cli.py:493-543 *)
Definition release_pipeline : M unit :=
  let* config := hook_configure (configure_impls env) in
  let* build_path := pure_call (config_getitem config "build_path") in
  let* build_path_exists := pure_call (py_path_exists build_path) in
  let* _ := when (negb build_path_exists) (sys_exit 1) in
  let* _ := run_stage pre_release config in
  let* _ := run_stage release config in
  run_stage post_release config.

(** cli.py:382-550 *)
Definition release_handler : M unit :=
  let* sha := preamble in
  let* snap := acquire sha RELEASE in
  let* _ := when (bool_decide (action snap ≠ RELEASE)) (sys_exit 0) in
  let* _ := release_pipeline in
  let* _ :=
    db_call EvComplete
      (SnapshotManager.complete snap (datetime_now env) (arg_user args)) in
  ret tt.

End Drivers.

(** The exit status of the process when [main] (cli.py:728-734) runs a handler:
    0 when it returns, the code of a [SystemExit], and 1 for any other
    exception ([BuildError] is caught and turned into [sys.exit(1)]; the
    interpreter ends with status 1 on an exception nobody catches). *)
Definition exit_status (o : Outcome unit) : Z :=
  match o with
  | Return _ => 0
  | Raise (SystemExit code) => code
  | Raise _ => 1
  end.

Definition is_hook_event (ev : Event) : bool :=
  match ev with
  | EvCall _ _ | EvRaise _ _ _ => true
  | _ => false
  end.

(** The hook invocations of a run. *)
Definition hook_events (evs : list Event) : list Event :=
  List.filter is_hook_event evs.




(** ** Stale builds (contrib.py:412-432, 599-603) *)

(** What [remove_stale_builds] sees of the builds directory:
    [builds_path.glob("*")] in the order the file system gives it,
    [p.stat().st_ctime] (a float is a rational number; the call raises when
    the path cannot be read) and [shutil.rmtree(p)] ([None] when it returns). *)
Record BuildsDir := mkBuildsDir {
  glob : list string;
  st_ctime : string → Outcome Q;
  rmtree : string → option exception
}.

(** The keys [sorted] computes first, one per path in list order. *)
Fixpoint stat_all (stat : string → Outcome Q) (paths : list string)
    : Outcome (list (Q * string)) :=
  match paths with
  | [] => Return []
  | p :: ps =>
      match stat p with
      | Raise e => Raise e
      | Return t =>
          match stat_all stat ps with
          | Raise e => Raise e
          | Return keyed => Return ((t, p) :: keyed)
          end
      end
  end.

(** [a < b] on floats. *)
Definition float_lt (a b : Q) : bool :=
  if Qlt_le_dec a b then true else false.

(** Python's [sorted] is stable, also with [reverse=True]: paths with equal
    keys keep the order they came in.  [insert_keyed] puts a path that came
    before all those of [l] at its place in the sorted [l]. *)
Fixpoint insert_keyed (reverse : bool) (x : Q * string) (l : list (Q * string))
    : list (Q * string) :=
  match l with
  | [] => [x]
  | y :: l' =>
      if (if reverse then float_lt (fst x) (fst y)
          else float_lt (fst y) (fst x))
      then y :: insert_keyed reverse x l'
      else x :: y :: l'
  end.

Definition sort_keyed (reverse : bool) (l : list (Q * string))
    : list (Q * string) :=
  foldr (insert_keyed reverse) [] l.

(** contrib.py:599-603 *)
Definition sort_paths_by_last_status_change (stat : string → Outcome Q)
    (paths : list string) (reverse : bool) : Outcome (list string) :=
  match stat_all stat paths with
  | Raise e => Raise e
  | Return keyed => Return (snd <$> sort_keyed reverse keyed)
  end.

(** The slice [l[k:]] of a Python list, for any integer [k]. *)
Definition slice_from {A} (k : Z) (l : list A) : list A :=
  if decide (0 ≤ k) then drop (Z.to_nat k) l
  else drop (length l - Z.to_nat (- k)) l.

(** The loop of contrib.py:426-429: the paths removed so far and the log body
    built so far; the first [rmtree] that raises ends it. *)
Fixpoint remove_loop (rm : string → option exception) (paths : list string)
    (log_body : string) (removed : list string)
    : Outcome string * list string :=
  match paths with
  | [] => (Return log_body, removed)
  | p :: ps =>
      match rm p with
      | Some e => (Raise e, removed)
      | None => remove_loop rm ps (log_body +:+ "+ " +:+ p) (removed ++ [p])
      end
  end.

(** What a call of [remove_stale_builds] did: its outcome, the paths it
    removed, in order, and the body it logged, if it logged. *)
Record StaleRun := mkStaleRun {
  stale_outcome : Outcome unit;
  removed : list string;
  logged : option string
}.

(** contrib.py:412-432 *)
Definition remove_stale_builds (fs : BuildsDir) (exclude_paths : list string)
    (keep_builds : Z) : StaleRun :=
  let existing_builds_path :=
    filter (λ p, p ∉ exclude_paths) (glob fs) in
  match sort_paths_by_last_status_change (st_ctime fs) existing_builds_path
          true with
  | Raise e => mkStaleRun (Raise e) [] None
  | Return existing_builds_path_sorted =>
      match remove_loop (rmtree fs)
              (slice_from keep_builds existing_builds_path_sorted) "" [] with
      | (Raise e, removed) => mkStaleRun (Raise e) removed None
      | (Return log_body, removed) =>
          mkStaleRun (Return tt) removed
            (if decide (log_body = "") then None else Some log_body)
      end
  end.

(** ** Dotenv files (contrib.py:606-627) *)

Module Str.

(** [str.isspace] on the code points below 256, which the characters of a
    [string] stand for. *)
Definition is_space (c : Ascii.ascii) : bool :=
  let n := Ascii.nat_of_ascii c in
  bool_decide (n ∈ [9; 10; 11; 12; 13; 28; 29; 30; 31; 32; 133; 160]%nat).

Fixpoint lstrip (s : string) : string :=
  match s with
  | EmptyString => EmptyString
  | String c s' => if is_space c then lstrip s' else s
  end.

Fixpoint rstrip (s : string) : string :=
  match s with
  | EmptyString => EmptyString
  | String c s' =>
      match rstrip s' with
      | EmptyString => if is_space c then EmptyString else String c EmptyString
      | r => String c r
      end
  end.

(** [s.strip()] *)
Definition strip (s : string) : string := rstrip (lstrip s).

(** [s] without the prefix [p], when it starts with it. *)
Fixpoint strip_prefix (p s : string) : option string :=
  match p with
  | EmptyString => Some s
  | String a p' =>
      match s with
      | EmptyString => None
      | String b s' => if Ascii.eqb a b then strip_prefix p' s' else None
      end
  end.

(** [s] without the suffix [q], when it ends with it. *)
Fixpoint strip_suffix (q s : string) : option string :=
  if String.eqb s q then Some EmptyString
  else
    match s with
    | EmptyString => None
    | String c s' => String c <$> strip_suffix q s'
    end.

(** [s.startswith(p)], [s.endswith(q)], [s.removeprefix(p)] and
    [s.removesuffix(q)]. *)
Definition startswith (p s : string) : bool :=
  bool_decide (is_Some (strip_prefix p s)).
Definition endswith (q s : string) : bool :=
  bool_decide (is_Some (strip_suffix q s)).
Definition removeprefix (p s : string) : string :=
  default s (strip_prefix p s).
Definition removesuffix (q s : string) : string :=
  default s (strip_suffix q s).

(** [s.split(c, maxsplit=1)] for a separator of one character: [None] when
    [c] does not occur (the list has one element), else the parts before and
    after its first occurrence. *)
Fixpoint split_once (c : Ascii.ascii) (s : string) : option (string * string) :=
  match s with
  | EmptyString => None
  | String b s' =>
      if Ascii.eqb b c then Some (EmptyString, s')
      else
        match split_once c s' with
        | Some (l, r) => Some (String b l, r)
        | None => None
        end
  end.

(** The character [=]. *)
Definition equals : Ascii.ascii := Ascii.ascii_of_nat 61.

(** The string of one double quote. *)
Definition dquote : string := String (Ascii.ascii_of_nat 34) EmptyString.

(** [c in s] *)
Fixpoint occurs (c : Ascii.ascii) (s : string) : bool :=
  match s with
  | EmptyString => false
  | String b s' => Ascii.eqb b c || occurs c s'
  end.

End Str.

(** The body of the loop of [get_environ_from_dotenv] for one line, up to the
    assignment: [None] for a line that is skipped, the name and the value for
    one that assigns.  Unpacking a split without ["="] raises [ValueError]. *)
Definition dotenv_entry (line_raw : string) : Outcome (option (string * string)) :=
  let line := Str.strip line_raw in
  if decide (line = "") then Return None
  else if Str.startswith "#" line then Return None
  else
    let expression := Str.removeprefix "export " line in
    match Str.split_once Str.equals expression with
    | None => Raise (OtherError "ValueError")
    | Some (name, value) =>
        let value :=
          if Str.startswith Str.dquote value && Str.endswith Str.dquote value
          then Str.removesuffix Str.dquote (Str.removeprefix Str.dquote value)
          else value in
        Return (Some (name, value))
    end.

(** The loop over the lines, from the dictionary built so far. *)
Fixpoint dotenv_loop (lines : list string) (environ : gmap string string)
    : Outcome (gmap string string) :=
  match lines with
  | [] => Return environ
  | line_raw :: rest =>
      match dotenv_entry line_raw with
      | Raise e => Raise e
      | Return None => dotenv_loop rest environ
      | Return (Some (name, value)) =>
          dotenv_loop rest (<[name := value]> environ)
      end
  end.

(** contrib.py:606-627, on the lines [path.read_text().splitlines()] gives. *)
Definition get_environ_from_dotenv (lines : list string)
    : Outcome (gmap string string) :=
  dotenv_loop lines ∅.

(** ** Vocabulary of the properties *)

(** The shape shared by [adopt_into_running_state], [complete] and
    [schedule_for_release]: one conditional update, first returned row. *)
Definition cas_call (f : Snapshot → Snapshot) (s : Snapshot) (d : Db)
    : Db * option Snapshot :=
  let '(tbl, rows) :=
    Sql.update (SnapshotManager.cas_where (ref_sha s) (state s)) f
               (snapshot d) in
  (mkDb tbl (snapshot_history d) (cache d), Sql.fetchone rows).

(** What a piece of the pipeline may do: it leaves the two snapshot tables
    alone, its events are hook invocations, and a hook that raised is the last
    thing that happened and decides the outcome. *)
Definition hook_only {A} (m : M A) : Prop :=
  ∀ d,
    snapshot (final (m d)) = snapshot d ∧
    snapshot_history (final (m d)) = snapshot_history d ∧
    Forall (λ ev, is_hook_event ev = true) (events (m d)) ∧
    (∀ st w e, EvRaise st w e ∈ events (m d) →
       outcome (m d) = Raise e ∧
       ∃ pre, events (m d) = pre ++ [EvRaise st w e]).


Definition claim_or_adopt_event (ev : Event) : Prop :=
  ev = EvCreate ∨ ev = EvAdopt.

(** What a run whose hook raised leaves behind: the exception is the outcome
    and the raise the last event; [complete] and [schedule_for_release] were
    not called; the driver had passed its preamble, [acquire] had returned a
    snapshot [snap] with the driver's action, and the [snapshot] table is
    still the one [acquire] left, with [snap] as the row of the ref_sha; and
    [snap] is [RUNNING] unless it is the row found at the start, carrying the
    caller's own pid. *)
Definition left_as_owned (env : Env) (args : Args) (act : ProcessAction)
    (d : Db) (r : Run unit) (st : Stage) (w : Who) (e : exception) : Prop :=
  outcome r = Raise e ∧
  (∃ pre, events r = pre ++ [EvRaise st w e]) ∧
  (EvComplete ∉ events r) ∧ (EvSchedule ∉ events r) ∧
  ∃ sha snap d1 evs,
    outcome (preamble env args d) = Return sha ∧
    acquire env args sha act d = mkRun (Return snap) d1 evs ∧
    action snap = act ∧
    snapshot (final r) = snapshot d1 ∧
    SnapshotManager.get sha (final r) = Some snap ∧
    (state snap = RUNNING ∨
     (SnapshotManager.get sha d = Some snap ∧ pid snap = os_getpid env)).

(** ** More of the hook interface (fpi.py:22-31) *)


(** The cache after the implementations [hs] have all been called from cache
    [c] and have all returned [None]; [None] when one of them does otherwise. *)
Fixpoint declined (hs : list (Hook (option Config))) (c : list CacheObject)
    : option (list CacheObject) :=
  match hs with
  | [] => Some c
  | h :: hs' =>
      match h c with
      | Returns None c' => declined hs' c'
      | _ => None
      end
  end.

(** The cache after the implementations [hs] of a broadcast stage have all
    been called from cache [c] and have all returned; [None] when one of them
    raises. *)
Fixpoint all_return (hs : list (Hook unit)) (c : list CacheObject)
    : option (list CacheObject) :=
  match hs with
  | [] => Some c
  | h :: hs' =>
      match h c with
      | Returns _ c' => all_return hs' c'
      | Raises _ _ => None
      end
  end.

(** The store with another [cache] table. *)
Definition with_cache (d : Db) (c : list CacheObject) : Db :=
  mkDb (snapshot d) (snapshot_history d) c.

(** The calls of the implementations number [i], [i+1], ..., [i+n-1] of a
    stage. *)
Definition plugin_calls (st : Stage) (i n : nat) : list Event :=
  (λ j, EvCall st (Plugin j)) <$> seq i n.


(** A keyed list in which no key is larger than one before it. *)
Fixpoint descending (l : list (Q * string)) : Prop :=
  match l with
  | [] => True
  | x :: l' => Forall (λ y, (fst y <= fst x)%Q) l' ∧ descending l'
  end.

#[global] Instance Qeq_decision (a b : Q) : Decision (a == b)%Q :=
  Qeq_dec a b.

(** [sorted] is [paths] in the order of [sorted(paths, key=ctime,
    reverse=True)]: from the most to the least recently changed, the paths
    changed at one time keeping the order they have in [paths]. *)
Definition newest_first (ctime : string → Q) (paths sorted : list string)
    : Prop :=
  descending ((λ p, (ctime p, p)) <$> sorted) ∧
  ∀ t, filter (λ p, (ctime p == t)%Q) sorted
       = filter (λ p, (ctime p == t)%Q) paths.

(** What one run for the ref_sha [sha] may do to the store [d]: it leaves
    [snapshot_history] alone, keeps the primary key, deletes no snapshot and
    touches the snapshot of no other ref_sha. *)
Definition store_step (sha : string) (d d' : Db) : Prop :=
  snapshot_history d' = snapshot_history d ∧
  (pk_unique (snapshot d) → pk_unique (snapshot d')) ∧
  (∀ k, is_Some (SnapshotManager.get k d) →
        is_Some (SnapshotManager.get k d')) ∧
  (∀ k, k ≠ sha → SnapshotManager.get k d' = SnapshotManager.get k d).

(** ** Sample stores and environments *)

Module Sample.

(** The snapshot of the design document's scenario: a build of [abc123]
    claimed by pid 100. *)
Definition snap_running : Snapshot :=
  mkSnapshot "main" "abc123" BUILD RUNNING 1000 "alice" None None 100 1000 None.

(** The same build once completed by pid 100. *)
Definition snap_complete : Snapshot :=
  mkSnapshot "main" "abc123" BUILD COMPLETE 1000 "alice" (Some 2000)
    (Some "alice") 100 2000 None.

(** The same snapshot scheduled for release by pid 100. *)
Definition snap_scheduled : Snapshot :=
  mkSnapshot "main" "abc123" RELEASE SCHEDULED 1000 "alice" (Some 2000)
    (Some "alice") 100 2000 None.

Definition db_running : Db := mkDb [snap_running] [] [].
Definition db_complete : Db := mkDb [snap_complete] [] [].
Definition db_scheduled : Db := mkDb [snap_scheduled] [] [].
Definition db_cached : Db := mkDb [] [] [mkCacheObject "tailwind" "v1"].


(** A process table: 100 and 200 run, 101 is gone, 102 belongs to another
    user, and probing anything else fails with [EINVAL]. *)
Definition process_table (p : Z) : option exception :=
  if decide (p = 100) then None
  else if decide (p = 200) then None
  else if decide (p = 101) then Some (OSError ESRCH)
  else if decide (p = 102) then Some (OSError EPERM)
  else Some (OSError 22).

(** The same table after process 100 has died. *)
Definition process_table_100_dead (p : Z) : option exception :=
  if decide (p = 100) then Some (OSError ESRCH) else process_table p.

Definition config_abc : Config :=
  {[ "build_path" := PyPath "/srv/builds/abc123" ]}.

(** A build system whose [build] and [release] stages have four
    implementations, the third of which raises. *)
Definition third_of_four_fails (st : Stage) : list (Config → Hook unit) :=
  match st with
  | build | release =>
      [ (λ _ c, Returns tt c);
        (λ _ c, Returns tt c);
        (λ _ c, Raises (OtherError "boom") c);
        (λ _ c, Returns tt c) ]
  | _ => []
  end.

Definition env_of (self : Z) (kill : Z → option exception) : Env :=
  {| os_getpid := self;
     datetime_now := 5000;
     os_kill := kill;
     get_ref_sha := λ _, Return "abc123";
     repo_path_exists := Return true;
     get_is_bare_repo := Return true;
     builds_path_exists := Return true;
     load_build_system := Return tt;
     configure_impls := [λ c, Returns (Some config_abc) c];
     stage_impls := third_of_four_fails;
     path_exists := λ _, Return true |}.

Definition args_main : Args := mkArgs "main" "bob" false.

(** The command line of [bou build --schedule-release]. *)
Definition args_chain : Args := mkArgs "main" "bob" true.

(** A build system whose [build] stage records a checksum in the cache and
    whose other stages have no implementation. *)
Definition build_records_checksum (st : Stage) : list (Config → Hook unit) :=
  match st with
  | build => [ (λ _ c, Returns tt (c ++ [mkCacheObject "tailwind" "v1"])) ]
  | _ => []
  end.

(** [env_of] with that build system, and with a file system in which build
    paths exist or not. *)
Definition env_with (self : Z) (kill : Z → option exception)
    (built : bool) : Env :=
  {| os_getpid := self;
     datetime_now := 5000;
     os_kill := kill;
     get_ref_sha := λ _, Return "abc123";
     repo_path_exists := Return true;
     get_is_bare_repo := Return true;
     builds_path_exists := Return true;
     load_build_system := Return tt;
     configure_impls := [λ c, Returns (Some config_abc) c];
     stage_impls := build_records_checksum;
     path_exists := λ _, Return built |}.

(** A snapshot whose pid cannot be probed in [process_table]. *)
Definition db_stray : Db :=
  mkDb [mkSnapshot "main" "abc123" BUILD RUNNING 1000 "alice" None None 103
          1000 None] [] [].

(** A builds directory: three builds, the symlink [latest] and a stray
    file, all readable and removable. *)
Definition builds_dir : BuildsDir :=
  {| glob := ["b2"; "latest"; "b1"; "b3"; "notes"];
     st_ctime := λ p,
       if decide (p = "b1") then Return (10 # 1)%Q
       else if decide (p = "b2") then Return (20 # 1)%Q
       else if decide (p = "b3") then Return (61 # 2)%Q
       else if decide (p = "notes") then Return (5 # 1)%Q
       else Return (40 # 1)%Q;
     rmtree := λ _, None |}.

(** A builds directory with two builds changed at the same time and a
    newer one, listed last. *)
Definition ctime_tie (p : string) : Q :=
  if decide (p = "c") then (9 # 1)%Q else (5 # 1)%Q.

Definition builds_dir_tie : BuildsDir :=
  {| glob := ["a"; "b"; "c"];
     st_ctime := λ p, Return (ctime_tie p);
     rmtree := λ _, None |}.

(** An environment whose builds path does not exist. *)
Definition env_no_builds_path : Env :=
  {| os_getpid := 100;
     datetime_now := 5000;
     os_kill := process_table;
     get_ref_sha := λ _, Return "abc123";
     repo_path_exists := Return true;
     get_is_bare_repo := Return true;
     builds_path_exists := Return false;
     load_build_system := Return tt;
     configure_impls := [];
     stage_impls := λ _, [];
     path_exists := λ _, Return true |}.

(** An environment whose repository path does not exist: git, run in that
    path to resolve the ref, fails, and [SubProcess.run] raises. *)
Definition env_no_repository : Env :=
  {| os_getpid := 100;
     datetime_now := 5000;
     os_kill := process_table;
     get_ref_sha := λ _, Raise (BuildError "Failed to get ref sha");
     repo_path_exists := Return false;
     get_is_bare_repo := Raise (BuildError "Failed to check if bare");
     builds_path_exists := Return true;
     load_build_system := Return tt;
     configure_impls := [];
     stage_impls := λ _, [];
     path_exists := λ _, Return true |}.

End Sample.

(** * Properties *)

(** ** The SQL layer *)

Section SqlFacts.

Context {A : Type} (P : A → Prop) `{∀ r, Decision (P r)}.

Lemma update_nil (f : A → A) : Sql.update P f [] = ([], []).
Proof. reflexivity. Qed.

Lemma update_cons (f : A → A) (x : A) (l : list A) :
  Sql.update P f (x :: l) =
    if decide (P x)
    then (f x :: (Sql.update P f l).1, f x :: (Sql.update P f l).2)
    else (x :: (Sql.update P f l).1, (Sql.update P f l).2).
Proof.
  unfold Sql.update; cbn [fmap list_fmap fst snd].
  destruct (decide (P x)) as [Hx|Hx].
  - by rewrite filter_cons_True.
  - by rewrite filter_cons_False.
Qed.

Lemma update_app (f : A → A) (l1 l2 : list A) :
  Sql.update P f (l1 ++ l2) =
    ((Sql.update P f l1).1 ++ (Sql.update P f l2).1,
     (Sql.update P f l1).2 ++ (Sql.update P f l2).2).
Proof.
  unfold Sql.update; cbn [fst snd].
  by rewrite fmap_app, filter_app, fmap_app.
Qed.

(** An [UPDATE] whose [WHERE] matches no row changes and returns nothing. *)
Lemma update_no_match (f : A → A) (l : list A) :
  Forall (λ x, ¬ P x) l → Sql.update P f l = (l, []).
Proof.
  induction 1 as [|x l Hx _ IH]; [done|].
  rewrite update_cons, IH. by destruct (decide (P x)).
Qed.

Lemma update_length (f : A → A) (l : list A) :
  length (Sql.update P f l).1 = length l.
Proof. unfold Sql.update; cbn [fst]. by rewrite length_fmap. Qed.

End SqlFacts.

(** ** The primary key *)

Section PrimaryKey.

Implicit Types (tbl : list Snapshot) (k : string) (r : Snapshot).

(** Where the row of a key sits: under the primary key it is the only one. *)
Lemma pk_split tbl k r :
  pk_unique tbl →
  head (filter (λ x, ref_sha x = k) tbl) = Some r →
  ∃ l1 l2, tbl = l1 ++ r :: l2 ∧ ref_sha r = k ∧
    Forall (λ x, ref_sha x ≠ k) l1 ∧ Forall (λ x, ref_sha x ≠ k) l2.
Proof.
  unfold pk_unique. induction tbl as [|x tbl IH]; intros Hnd Hhd; [done|].
  rewrite fmap_cons in Hnd. apply NoDup_cons in Hnd as [Hx Hnd].
  destruct (decide (ref_sha x = k)) as [Hk|Hk].
  - rewrite filter_cons_True in Hhd by done. injection Hhd as ->.
    exists [], tbl. repeat split; [done|done|].
    apply Forall_forall. intros y Hy Hyk. apply Hx.
    rewrite <- Hk in Hyk. rewrite <- Hyk. by apply list_elem_of_fmap_2.
  - rewrite filter_cons_False in Hhd by done.
    destruct (IH Hnd Hhd) as (l1 & l2 & -> & Hr & H1 & H2).
    exists (x :: l1), l2. repeat split; [done|by constructor|done].
Qed.

Lemma get_None_Forall tbl k :
  head (filter (λ x, ref_sha x = k) tbl) = None →
  Forall (λ x, ref_sha x ≠ k) tbl.
Proof.
  intros Hn%head_None. apply Forall_forall. intros x Hx Hk.
  assert (x ∈ filter (λ x, ref_sha x = k) tbl) as Hin
    by by apply list_elem_of_filter.
  rewrite Hn in Hin. by apply not_elem_of_nil in Hin.
Qed.

Lemma filter_no_key tbl k :
  Forall (λ x, ref_sha x ≠ k) tbl → filter (λ x, ref_sha x = k) tbl = [].
Proof.
  induction 1 as [|x l Hx _ IH]; [done|]. by rewrite filter_cons_False.
Qed.

Lemma no_key_no_cas tbl k st :
  Forall (λ x, ref_sha x ≠ k) tbl →
  Forall (λ x, ¬ SnapshotManager.cas_where k st x) tbl.
Proof.
  intros Hno. eapply Forall_impl; [exact Hno|].
  intros x Hx [Hk _]. done.
Qed.

(** A conditional update under the primary key, when the stored row has the
    expected state: that row alone is rewritten, and it is the row returned. *)
Lemma cas_hit tbl k st (f : Snapshot → Snapshot) r :
  pk_unique tbl →
  head (filter (λ x, ref_sha x = k) tbl) = Some r →
  state r = st →
  ∃ l1 l2, tbl = l1 ++ r :: l2 ∧
    Forall (λ x, ref_sha x ≠ k) l1 ∧ Forall (λ x, ref_sha x ≠ k) l2 ∧
    Sql.update (SnapshotManager.cas_where k st) f tbl
      = (l1 ++ f r :: l2, [f r]).
Proof.
  intros Hpk Hhd Hst.
  destruct (pk_split _ _ _ Hpk Hhd) as (l1 & l2 & -> & Hk & H1 & H2).
  exists l1, l2. repeat split; [done..|].
  rewrite update_app, update_cons.
  rewrite (update_no_match _ f l1) by by apply no_key_no_cas.
  rewrite (update_no_match _ f l2) by by apply no_key_no_cas.
  destruct (decide (SnapshotManager.cas_where k st r)) as [|Hn]; [done|].
  by destruct Hn.
Qed.

(** ... and when there is no row, or the state moved on: nothing happens. *)
Lemma cas_miss tbl k st (f : Snapshot → Snapshot) :
  pk_unique tbl →
  (∀ r, head (filter (λ x, ref_sha x = k) tbl) = Some r → state r ≠ st) →
  Sql.update (SnapshotManager.cas_where k st) f tbl = (tbl, []).
Proof.
  intros Hpk Hst. apply update_no_match.
  destruct (head (filter (λ x, ref_sha x = k) tbl)) as [r|] eqn:Hhd.
  - destruct (pk_split _ _ _ Hpk Hhd) as (l1 & l2 & -> & Hk & H1 & H2).
    apply Forall_app; split; [by apply no_key_no_cas|].
    constructor; [|by apply no_key_no_cas].
    intros [_ Hs]. by apply (Hst r).
  - by apply no_key_no_cas, get_None_Forall.
Qed.

(** The row of a key after the rewrite of [cas_hit]. *)
Lemma get_rewritten l1 l2 k r' :
  Forall (λ x, ref_sha x ≠ k) l1 → ref_sha r' = k →
  head (filter (λ x, ref_sha x = k) (l1 ++ r' :: l2)) = Some r'.
Proof.
  intros H1 Hk. rewrite filter_app, (filter_no_key _ _ H1).
  by rewrite filter_cons_True.
Qed.

End PrimaryKey.

(** ** The coordinator's operations *)

Section Coordinator.

Import SnapshotManager.

Implicit Types (d : Db) (s r : Snapshot) (k : string).

Lemma cas_call_hit f s d r :
  pk_unique (snapshot d) →
  get (ref_sha s) d = Some r → state r = state s →
  (∀ x, ref_sha (f x) = ref_sha x) →
  ∃ l1 l2, snapshot d = l1 ++ r :: l2 ∧
    cas_call f s d
      = (mkDb (l1 ++ f r :: l2) (snapshot_history d) (cache d), Some (f r)) ∧
    get (ref_sha s) (cas_call f s d).1 = Some (f r).
Proof.
  intros Hpk Hget Hst Hf. unfold get, Sql.fetchone, Sql.select in Hget.
  destruct (cas_hit _ _ _ f _ Hpk Hget Hst) as (l1 & l2 & Htbl & H1 & H2 & Hup).
  exists l1, l2. unfold cas_call. rewrite Hup. repeat split; [done|].
  unfold get, Sql.fetchone, Sql.select; cbn [fst snapshot].
  apply get_rewritten; [done|]. rewrite Hf.
  destruct (pk_split _ _ _ Hpk Hget) as (_ & _ & _ & Hk & _). done.
Qed.

Lemma cas_call_miss f s d :
  pk_unique (snapshot d) →
  (∀ r, get (ref_sha s) d = Some r → state r ≠ state s) →
  cas_call f s d = (d, None).
Proof.
  intros Hpk Hmiss. unfold cas_call.
  rewrite (cas_miss _ _ _ f Hpk Hmiss). by destruct d.
Qed.

Lemma cas_call_history f s d :
  snapshot_history (cas_call f s d).1 = snapshot_history d ∧
  cache (cas_call f s d).1 = cache d.
Proof. unfold cas_call. by destruct (Sql.update _ _ _). Qed.

(** The primary key survives every operation of the coordinator. *)
Lemma cas_call_pk_unique f s d :
  (∀ x, ref_sha (f x) = ref_sha x) →
  pk_unique (snapshot d) → pk_unique (snapshot (cas_call f s d).1).
Proof.
  intros Hf. unfold cas_call, Sql.update, pk_unique; cbn [fst snapshot].
  intros Hpk. rewrite <- (list_fmap_compose _ ref_sha).
  erewrite (list_fmap_ext _ ref_sha); [exact Hpk|].
  intros i x _. cbn. by destruct (decide _).
Qed.

Lemma create_pk_unique rf k a st now user p d :
  pk_unique (snapshot d) →
  pk_unique (snapshot (create rf k a st now user p d).1).
Proof.
  intros Hpk. unfold create, Sql.select.
  destruct (filter _ (snapshot d)) eqn:Hf; [|done].
  unfold pk_unique; cbn [fst snapshot]. rewrite fmap_app.
  apply NoDup_app. split; [done|]. split; [|apply NoDup_singleton].
  intros x Hx Hin%list_elem_of_singleton. cbn in Hin. subst x.
  apply list_elem_of_fmap in Hx as (y & Hy & Hin).
  assert (y ∈ filter (λ r, ref_sha r = k) (snapshot d)) as Hyf
    by by apply list_elem_of_filter.
  rewrite Hf in Hyf. by apply not_elem_of_nil in Hyf.
Qed.

Lemma create_absent rf k a st now user p d :
  get k d = None →
  create rf k a st now user p d
    = (mkDb (snapshot d ++ [new_row rf k a st now user p])
            (snapshot_history d) (cache d),
       Some (new_row rf k a st now user p)).
Proof.
  unfold get, Sql.fetchone. intros Hn%head_None.
  unfold create. by rewrite Hn.
Qed.


Lemma get_after_create rf k a st now user p d :
  get k d = None →
  get k (create rf k a st now user p d).1 = Some (new_row rf k a st now user p).
Proof.
  intros Hn. rewrite (create_absent _ _ _ _ _ _ _ _ Hn).
  unfold get, Sql.fetchone, Sql.select in *; cbn [fst snapshot].
  apply head_None in Hn. rewrite filter_app, Hn.
  by rewrite filter_cons_True.
Qed.



End Coordinator.

Section CoordinatorClaims.

Import SnapshotManager.


(** C2.  Under the primary key, [adopt_into_running_state] is a
    compare-and-swap on the row of [s.ref_sha]: if its stored state equals
    [s.state], that row alone gets the given action, [RUNNING], the pid and
    fresh [updated_at]/[updated_by], every other column and row staying as it
    was, and the updated row is returned; otherwise (no row, or another
    state) the result is [None] and the store is unchanged. *)
Theorem adopt_compare_and_swap (s : Snapshot) (a : ProcessAction)
    (now : datetime) (user : string) (p : Z) (d : Db) :
  pk_unique (snapshot d) →
  let res := adopt_into_running_state s a now user p d in
  (∀ r, get (ref_sha s) d = Some r → state r = state s →
     let r' := mkSnapshot (ref r) (ref_sha r) a RUNNING (created_at r)
                 (created_by r) (Some now) (Some user) p (efd r) (etd r) in
     ∃ l1 l2, snapshot d = l1 ++ r :: l2 ∧
       res = (mkDb (l1 ++ r' :: l2) (snapshot_history d) (cache d), Some r') ∧
       get (ref_sha s) res.1 = Some r') ∧
  ((∀ r, get (ref_sha s) d = Some r → state r ≠ state s) → res = (d, None)).
Proof.
  intros Hpk res. split.
  - intros r Hget Hst r'.
    by apply (cas_call_hit (adopt_set a now user p) s d r).
  - intros Hmiss. by apply (cas_call_miss (adopt_set a now user p) s d).
Qed.

(** C3, as the code has it.  Under the primary key, [complete] is a
    compare-and-swap on the row of [snapshot.ref_sha]: if its stored state
    equals the state the caller observed, the state becomes [COMPLETE],
    [updated_at]/[updated_by] are refreshed and the state-since column [efd]
    is set to the current time, while the completion column [etd] keeps the
    value it had; otherwise the result is [None] and the store is unchanged. *)
Theorem complete_compare_and_swap (s : Snapshot) (now : datetime)
    (user : string) (d : Db) :
  pk_unique (snapshot d) →
  let res := complete s now user d in
  (∀ r, get (ref_sha s) d = Some r → state r = state s →
     let r' := mkSnapshot (ref r) (ref_sha r) (action r) COMPLETE
                 (created_at r) (created_by r) (Some now) (Some user)
                 (pid r) now (etd r) in
     ∃ l1 l2, snapshot d = l1 ++ r :: l2 ∧
       res = (mkDb (l1 ++ r' :: l2) (snapshot_history d) (cache d), Some r') ∧
       get (ref_sha s) res.1 = Some r') ∧
  ((∀ r, get (ref_sha s) d = Some r → state r ≠ state s) → res = (d, None)).
Proof.
  intros Hpk res. split.
  - intros r Hget Hst r'.
    by apply (cas_call_hit (complete_set now user) s d r).
  - intros Hmiss. by apply (cas_call_miss (complete_set now user) s d).
Qed.

(** C5, as the code has it.  No operation of the coordinator writes to
    [snapshot_history]: [create], [adopt_into_running_state], [complete] and
    [schedule_for_release] all leave that table exactly as it was, whether or
    not they change the [snapshot] table. *)
Theorem snapshot_history_never_written (rf k : string) (s : Snapshot)
    (a : ProcessAction) (st : ProcessState) (now : datetime) (user : string)
    (p : Z) (d : Db) :
  snapshot_history (create rf k a st now user p d).1 = snapshot_history d ∧
  snapshot_history (adopt_into_running_state s a now user p d).1
    = snapshot_history d ∧
  snapshot_history (complete s now user d).1 = snapshot_history d ∧
  snapshot_history (schedule_for_release s now user d).1 = snapshot_history d.
Proof.
  split; [|split; [|split]].
  - unfold create. by destruct (Sql.select _ _).
  - apply (cas_call_history (adopt_set a now user p)).
  - apply (cas_call_history (complete_set now user)).
  - apply (cas_call_history (schedule_set now user)).
Qed.

End CoordinatorClaims.

(** ** The cache *)

Section CacheClaims.

Implicit Types (d : Db) (k v : string) (o : Object) (row : CacheObject).

(** The constructor of [Object] refuses every row of [cache]. *)
Lemma row_factory_refuses row :
  Cache.row_factory_wrapper Cache.Object_new Cache.columns (Cache.record row)
    = Raise TypeError.
Proof.
  unfold Cache.row_factory_wrapper, Cache.Object_new, Cache.columns,
    Cache.record. cbn [zip zip_with reverse rev_append list_to_map foldr
                       fst snd].
  rewrite lookup_insert_ne by done. rewrite lookup_insert_ne by done.
  by rewrite lookup_empty.
Qed.

Lemma select_nil_iff k d :
  Sql.select (λ row, key row = k) (cache d) = [] ↔
  ∀ row, row ∈ cache d → key row ≠ k.
Proof.
  unfold Sql.select. split.
  - intros Hnil row Hin Hk.
    assert (row ∈ filter (λ row, key row = k) (cache d)) as Hf
      by by apply list_elem_of_filter.
    rewrite Hnil in Hf. by apply not_elem_of_nil in Hf.
  - intros Hall. destruct (filter _ (cache d)) as [|row l] eqn:Hf; [done|].
    assert (row ∈ filter (λ row, key row = k) (cache d)) as Hin
      by (rewrite Hf; apply list_elem_of_here).
    apply list_elem_of_filter in Hin as [Hk Hin]. by destruct (Hall row Hin).
Qed.

(** [Cache.get] never hands an object out, and leaves the store alone. *)
Lemma cache_get_cases k d :
  ((∀ row, row ∈ cache d → key row ≠ k) →
     Cache.get k d = (d, Return None)) ∧
  ((∃ row, row ∈ cache d ∧ key row = k) →
     Cache.get k d = (d, Raise TypeError)).
Proof.
  unfold Cache.get, Cache.execute_and_fetchone, Cache.with_conn,
    Sql.fetchone. split.
  - intros Hnil%select_nil_iff. by rewrite Hnil.
  - intros (row & Hin & Hk).
    destruct (Sql.select _ (cache d)) as [|row' l] eqn:Hsel.
    + by destruct (proj1 (select_nil_iff k d) Hsel row Hin).
    + cbn [head]. by rewrite row_factory_refuses.
Qed.

(** [Cache.set] raises on every path, and the store is as before the call. *)
Lemma cache_set_cases k v d :
  ((∀ row, row ∈ cache d → key row ≠ k) →
     Cache.set k v d = (d, Raise TypeError)) ∧
  ((∃ row, row ∈ cache d ∧ key row = k) →
     Cache.set k v d = (d, Raise IntegrityError)).
Proof.
  unfold Cache.set, Cache.execute_and_fetchone, Cache.with_conn,
    Sql.fetchone. split.
  - intros Hnil%select_nil_iff. rewrite Hnil. cbn [head].
    by rewrite row_factory_refuses.
  - intros (row & Hin & Hk).
    destruct (Sql.select _ (cache d)) as [|row' l] eqn:Hsel; [|done].
    by destruct (proj1 (select_nil_iff k d) Hsel row Hin).
Qed.

Lemma cache_set_store k v d : (Cache.set k v d).1 = d.
Proof.
  destruct (cache_set_cases k v d) as [Hnew Hold].
  destruct (Sql.select (λ row, key row = k) (cache d)) as [|row l] eqn:Hsel.
  - by rewrite Hnew by by apply select_nil_iff.
  - rewrite Hold; [done|]. exists row.
    assert (row ∈ filter (λ row, key row = k) (cache d)) as Hin
      by (unfold Sql.select in Hsel; rewrite Hsel; apply list_elem_of_here).
    apply list_elem_of_filter in Hin as [Hk Hin]. done.
Qed.

(** The [UNIQUE(key)] constraint survives [Cache.set]. *)
Lemma cache_set_ucon k v d :
  ucon_cache (cache d) → ucon_cache (cache (Cache.set k v d).1).
Proof. by rewrite cache_set_store. Qed.

(** C9, what the code does.  [Cache.set k v] never returns: for a key that
    holds no entry the row is inserted, the row factory fails to build the
    object ([TypeError]) and the insertion is rolled back; for a key that
    holds an entry the [INSERT] is rejected by the [UNIQUE(key)] constraint
    ([IntegrityError]).  Either way the store is as before the call, so a
    [Cache.get k] after a [Cache.set k v] of a fresh key finds nothing.
    [Cache.get] returns [None] for a key that holds no entry and raises
    [TypeError] for a key that holds one.  No entry is ever evicted: no
    operation of the cache or of the coordinator changes the [cache]
    table. *)
Theorem cache_set_get_raises (k v : string) (d : Db) :
  let res := Cache.set k v d in
  res.1 = d ∧
  ((∀ row, row ∈ cache d → key row ≠ k) →
     res.2 = Raise TypeError ∧
     Cache.get k d = (d, Return None) ∧
     Cache.get k res.1 = (d, Return None)) ∧
  ((∃ row, row ∈ cache d ∧ key row = k) →
     res.2 = Raise IntegrityError ∧
     Cache.get k d = (d, Raise TypeError)) ∧
  (∀ k' o, (Cache.get k' d).2 ≠ Return (Some o) ∧ res.2 ≠ Return (Some o)) ∧
  (∀ rf sha s a st now user p,
     cache (SnapshotManager.create rf sha a st now user p d).1 = cache d ∧
     cache (SnapshotManager.adopt_into_running_state s a now user p d).1
       = cache d ∧
     cache (SnapshotManager.complete s now user d).1 = cache d ∧
     cache (SnapshotManager.schedule_for_release s now user d).1 = cache d).
Proof.
  intros res. subst res.
  assert (∀ k', (∀ row, row ∈ cache d → key row ≠ k') ∨
                (∃ row, row ∈ cache d ∧ key row = k')) as Hcases.
  { intros k'.
    destruct (Sql.select (λ row, key row = k') (cache d)) as [|row l] eqn:Hsel.
    - left. by apply select_nil_iff.
    - right. exists row.
      assert (row ∈ filter (λ row, key row = k') (cache d)) as Hin
        by (unfold Sql.select in Hsel; rewrite Hsel; apply list_elem_of_here).
      by apply list_elem_of_filter in Hin as [Hk Hin]. }
  destruct (cache_set_cases k v d) as [Hnew Hold].
  split; [apply cache_set_store|]. split; [|split; [|split]].
  - intros Hfresh. rewrite (Hnew Hfresh). cbn [fst snd].
    by rewrite (proj1 (cache_get_cases k d) Hfresh).
  - intros Hstored. rewrite (Hold Hstored). cbn [snd].
    by rewrite (proj2 (cache_get_cases k d) Hstored).
  - intros k' o. split.
    + destruct (Hcases k') as [Hc|Hc].
      * by rewrite (proj1 (cache_get_cases k' d) Hc).
      * by rewrite (proj2 (cache_get_cases k' d) Hc).
    + destruct (Hcases k) as [Hc|Hc]; [by rewrite (Hnew Hc)|].
      by rewrite (Hold Hc).
  - intros rf sha s a st now user p. split; [|split; [|split]].
    + unfold SnapshotManager.create. by destruct (Sql.select _ _).
    + apply (cas_call_history (SnapshotManager.adopt_set a now user p)).
    + apply (cas_call_history (SnapshotManager.complete_set now user)).
    + apply (cas_call_history (SnapshotManager.schedule_set now user)).
Qed.

End CacheClaims.

(** ** The liveness probe *)

(** C6.  [is_pid_alive] answers dead for a pid that is not positive, without
    probing; for a positive pid it answers dead when the probe fails with
    [ESRCH], alive when the probe succeeds or fails with [EPERM], and lets
    any other error of the probe through to the caller. *)
Theorem is_pid_alive_classifies (os_kill : Z → option exception) (p : Z) :
  (p ≤ 0 → is_pid_alive os_kill p = Return false) ∧
  (0 < p → os_kill p = Some (OSError ESRCH) →
     is_pid_alive os_kill p = Return false) ∧
  (0 < p → os_kill p = None → is_pid_alive os_kill p = Return true) ∧
  (0 < p → os_kill p = Some (OSError EPERM) →
     is_pid_alive os_kill p = Return true) ∧
  (0 < p → ∀ e, os_kill p = Some e →
     e ≠ OSError ESRCH → e ≠ OSError EPERM →
     is_pid_alive os_kill p = Raise e).
Proof.
  unfold is_pid_alive. repeat split.
  - intros Hp. by rewrite decide_True.
  - intros Hp ->. rewrite decide_False by lia. done.
  - intros Hp ->. rewrite decide_False by lia. done.
  - intros Hp ->. rewrite decide_False by lia. done.
  - intros Hp e -> H1 H2. rewrite decide_False by lia.
    destruct e as [| errno | | | | | | |]; try done.
    destruct (decide (errno = ESRCH)) as [->|]; [done|].
    destruct (decide (errno = EPERM)) as [->|]; done.
Qed.

(** ** Runs *)

Section RunFacts.

Context {A B : Type}.

Lemma bind_return (m : M A) (k : A → M B) d a :
  outcome (m d) = Return a →
  bind m k d =
    mkRun (outcome (k a (final (m d)))) (final (k a (final (m d))))
          (events (m d) ++ events (k a (final (m d)))).
Proof. unfold bind. by intros ->. Qed.

Lemma bind_raise (m : M A) (k : A → M B) d e :
  outcome (m d) = Raise e →
  bind m k d = mkRun (Raise e) (final (m d)) (events (m d)).
Proof. unfold bind. by intros ->. Qed.

End RunFacts.

Section HookOnly.

Local Ltac split4 := split; [|split; [|split]].

Lemma hook_only_silent {A} (m : M A) :
  (∀ d, final (m d) = d ∧ events (m d) = []) → hook_only m.
Proof.
  intros Hm d. destruct (Hm d) as [-> ->].
  split4; [done|done|constructor|]. by intros ? ? ? ?%elem_of_nil.
Qed.

Lemma hook_only_ret {A} (a : A) : hook_only (ret a).
Proof. by apply hook_only_silent. Qed.

Lemma hook_only_raise {A} (e : exception) : hook_only (@raise A e).
Proof. by apply hook_only_silent. Qed.

Lemma hook_only_pure_call {A} (o : Outcome A) : hook_only (pure_call o).
Proof. by apply hook_only_silent. Qed.

Lemma hook_only_when c (m : M unit) : hook_only m → hook_only (when c m).
Proof. destruct c; [done|]. intros _. apply hook_only_ret. Qed.

Lemma hook_only_call_hook {A} st w (h : Hook A) : hook_only (call_hook st w h).
Proof.
  intros d. unfold call_hook. destruct (h (cache d)) as [a c|e c]; cbn.
  - split4; [done|done|by repeat constructor|].
    intros ? ? ? Hin%list_elem_of_singleton. discriminate.
  - split4; [done|done|by repeat constructor|].
    intros st' w' e' Hin. apply elem_of_cons in Hin as [Heq|Hin]; [done|].
    apply list_elem_of_singleton in Hin. injection Hin as -> -> ->.
    split; [done|]. by exists [EvCall st w].
Qed.

Lemma hook_only_base_noop st : hook_only (base_noop st).
Proof.
  intros d. cbn. split4; [done|done|by repeat constructor|].
  intros ? ? ? Hin%list_elem_of_singleton. discriminate.
Qed.

Lemma hook_only_bind {A B} (m : M A) (k : A → M B) :
  hook_only m → (∀ a, hook_only (k a)) → hook_only (bind m k).
Proof.
  intros Hm Hk d. destruct (Hm d) as (Hs & Hh & Hev & Hlast).
  destruct (outcome (m d)) as [a|e] eqn:Ho.
  - rewrite (bind_return _ _ _ _ Ho); cbn [outcome final events].
    destruct (Hk a (final (m d))) as (Hs' & Hh' & Hev' & Hlast').
    split4; [congruence|congruence|by apply Forall_app|].
    intros st w e Hin. apply elem_of_app in Hin as [Hin|Hin].
    + destruct (Hlast _ _ _ Hin) as [Hr _]. congruence.
    + destruct (Hlast' _ _ _ Hin) as [Hr [pre Hpre]]. split; [done|].
      exists (events (m d) ++ pre). by rewrite Hpre, (assoc_L (++)).
  - rewrite (bind_raise _ _ _ _ Ho); cbn [outcome final events].
    split4; [done..|].
    intros st w e' Hin. destruct (Hlast _ _ _ Hin) as [Hr Hpre].
    split; [congruence|done].
Qed.

Lemma hook_only_call_impls st hs : ∀ i, hook_only (call_impls st i hs).
Proof.
  induction hs as [|h hs IH]; intros i; cbn [call_impls].
  - apply hook_only_ret.
  - apply hook_only_bind; [apply hook_only_call_hook|]. intros _. apply IH.
Qed.

Lemma hook_only_hook_broadcast st hs : hook_only (hook_broadcast st hs).
Proof.
  apply hook_only_bind; [apply hook_only_base_noop|].
  intros _. apply hook_only_call_impls.
Qed.

Lemma hook_only_first_result hs : ∀ i, hook_only (first_result i hs).
Proof.
  induction hs as [|h hs IH]; intros i; cbn [first_result].
  - apply hook_only_ret.
  - apply hook_only_bind; [apply hook_only_call_hook|].
    intros [c|]; [apply hook_only_ret|apply IH].
Qed.

Lemma hook_only_hook_configure hs : hook_only (hook_configure hs).
Proof.
  intros d. unfold hook_configure.
  destruct (hook_only_first_result hs 0%nat d) as (Hs & Hh & Hev & Hlast).
  destruct (outcome (first_result 0 hs d)) as [res|e] eqn:Ho.
  - assert (∀ st w e, EvRaise st w e ∉ events (first_result 0 hs d)) as Hno.
    { intros st w e Hin. destruct (Hlast _ _ _ Hin) as [Hr _]. congruence. }
    destruct (validate_config res) as [config|e]; cbn [outcome final events].
    + split4; [done|done|by constructor|].
      intros st w e Hin. apply elem_of_cons in Hin as [Heq|Hin]; [done|].
      by apply Hno in Hin.
    + split4; [done|done| |].
      * constructor; [done|]. apply Forall_app. split; [done|].
        by repeat constructor.
      * intros st w e' Hin. apply elem_of_cons in Hin as [Heq|Hin]; [done|].
        apply elem_of_app in Hin as [Hin|Hin]; [by apply Hno in Hin|].
        apply list_elem_of_singleton in Hin. injection Hin as -> -> ->.
        split; [done|].
        by exists (EvCall configure Base :: events (first_result 0 hs d)).
  - cbn [outcome final events]. split4; [done|done|by constructor|].
    intros st w e' Hin. apply elem_of_cons in Hin as [Heq|Hin]; [done|].
    destruct (Hlast _ _ _ Hin) as [Hr [pre Hpre]]. split; [congruence|].
    exists (EvCall configure Base :: pre). by rewrite Hpre.
Qed.

Lemma hook_only_build_pipeline env : hook_only (build_pipeline env).
Proof.
  unfold build_pipeline, run_stage.
  repeat first
    [ apply hook_only_hook_broadcast
    | apply hook_only_hook_configure
    | apply hook_only_pure_call
    | apply hook_only_bind; [|intros ?] ].
Qed.

Lemma hook_only_release_pipeline env : hook_only (release_pipeline env).
Proof.
  unfold release_pipeline, run_stage.
  repeat first
    [ apply hook_only_hook_broadcast
    | apply hook_only_hook_configure
    | apply hook_only_pure_call
    | apply hook_only_when, hook_only_raise
    | apply hook_only_bind; [|intros ?] ].
Qed.

End HookOnly.

(** ** The drivers *)

Section DriverFacts.

Local Ltac simpl_run :=
  cbn -[SnapshotManager.get SnapshotManager.create
        SnapshotManager.adopt_into_running_state SnapshotManager.complete
        SnapshotManager.schedule_for_release is_pid_alive].

Variable env : Env.
Variable args : Args.

Implicit Types (d : Db) (sha : string) (snap : Snapshot).

Lemma silent_bind {A B} (m : M A) (k : A → M B) :
  (∀ d, final (m d) = d ∧ events (m d) = []) →
  (∀ a d, final (k a d) = d ∧ events (k a d) = []) →
  ∀ d, final (bind m k d) = d ∧ events (bind m k d) = [].
Proof.
  intros Hm Hk d. destruct (Hm d) as [Hf He].
  destruct (outcome (m d)) as [a|e] eqn:Ho.
  - rewrite (bind_return _ _ _ _ Ho). cbn [final events]. rewrite Hf, He.
    by destruct (Hk a d) as [-> ->].
  - rewrite (bind_raise _ _ _ _ Ho). by cbn [final events].
Qed.

(** The preamble reads the environment only. *)
Lemma preamble_silent d :
  final (preamble env args d) = d ∧ events (preamble env args d) = [].
Proof.
  revert d. unfold preamble.
  apply silent_bind; [done|intros sha].
  apply silent_bind; [done|intros repo_exists].
  apply silent_bind; [by destruct repo_exists|intros _].
  apply silent_bind; [done|intros git_repo_is_bare].
  apply silent_bind; [by destruct git_repo_is_bare|intros _].
  apply silent_bind; [done|intros builds_exists].
  apply silent_bind; [by destruct builds_exists|intros _].
  apply silent_bind; [done|intros _]. done.
Qed.

Lemma preamble_returns d sha :
  outcome (preamble env args d) = Return sha →
  preamble env args d = mkRun (Return sha) d [].
Proof.
  intros Ho. destruct (preamble_silent d) as [Hf He].
  destruct (preamble env args d) as [o f ev]. cbn in *. by subst.
Qed.

(** A live peer holds the snapshot: nothing is claimed, nothing changes. *)
Lemma acquire_live_peer sha act d s :
  SnapshotManager.get sha d = Some s →
  pid s ≠ os_getpid env →
  is_pid_alive (os_kill env) (pid s) = Return true →
  acquire env args sha act d = mkRun (Raise (SystemExit 0)) d [].
Proof.
  intros Hget Hpid Halive. unfold acquire, bind, db_read, pure_call; simpl_run.
  rewrite Hget; simpl_run. rewrite Halive; simpl_run.
  rewrite bool_decide_true by done. done.
Qed.



(** The first row of a key is the one a conditional update on the state just
    read rewrites, and the one it returns. *)
Lemma update_first (tbl : list Snapshot) sha s (f : Snapshot → Snapshot) :
  head (filter (λ x, ref_sha x = sha) tbl) = Some s →
  (∀ x, ref_sha (f x) = ref_sha x) →
  head (Sql.update (SnapshotManager.cas_where sha (state s)) f tbl).2
    = Some (f s) ∧
  head (filter (λ x, ref_sha x = sha)
          (Sql.update (SnapshotManager.cas_where sha (state s)) f tbl).1)
    = Some (f s).
Proof.
  intros Hhd Hf. induction tbl as [|x tbl IH]; [done|].
  rewrite update_cons. destruct (decide (ref_sha x = sha)) as [Hk|Hk].
  - rewrite filter_cons_True in Hhd by done. injection Hhd as ->.
    rewrite decide_True by done. cbn [fst snd].
    rewrite filter_cons_True by by rewrite Hf. done.
  - rewrite filter_cons_False in Hhd by done.
    rewrite decide_False by by intros [? _]. cbn [fst snd].
    rewrite filter_cons_False by done. by apply IH.
Qed.

Lemma get_ref_sha_eq sha d s : SnapshotManager.get sha d = Some s → ref_sha s = sha.
Proof.
  unfold SnapshotManager.get, Sql.fetchone, Sql.select.
  intros Hhd%head_Some_elem_of. by apply list_elem_of_filter in Hhd as [? _].
Qed.

(** Adopting the snapshot just looked up cannot fail. *)
Lemma adopt_just_read sha act now user p d s :
  SnapshotManager.get sha d = Some s →
  ∃ d1,
    SnapshotManager.adopt_into_running_state s act now user p d
      = (d1, Some (SnapshotManager.adopt_set act now user p s)) ∧
    SnapshotManager.get sha d1 = Some (SnapshotManager.adopt_set act now user p s) ∧
    snapshot_history d1 = snapshot_history d ∧ cache d1 = cache d.
Proof.
  intros Hget. pose proof (get_ref_sha_eq _ _ _ Hget) as Hk.
  unfold SnapshotManager.get, Sql.fetchone, Sql.select in Hget.
  destruct (update_first _ _ _ (SnapshotManager.adopt_set act now user p) Hget)
    as [H1 H2]; [done|].
  unfold SnapshotManager.adopt_into_running_state. rewrite Hk.
  destruct (Sql.update _ _ _) as [tbl rows]. cbn [fst snd] in *.
  eexists. split; [|split; [|split]]; [by rewrite <- H1|exact H2|done..].
Qed.

(** What owning a snapshot means once [acquire] returns it: it is the row of
    the store, and it is [RUNNING] unless the run found its own pid on it and
    took it as it was. *)
Lemma acquire_owned sha act d snap d1 evs :
  acquire env args sha act d = mkRun (Return snap) d1 evs →
  SnapshotManager.get sha d1 = Some snap ∧
  snapshot_history d1 = snapshot_history d ∧ cache d1 = cache d ∧
  (state snap = RUNNING ∨
   (SnapshotManager.get sha d = Some snap ∧ pid snap = os_getpid env ∧ d1 = d)).
Proof.
  unfold acquire, bind, db_read, db_call, pure_call; simpl_run.
  destruct (SnapshotManager.get sha d) as [s|] eqn:Hget; simpl_run.
  - destruct (is_pid_alive (os_kill env) (pid s)) as [alive|e]; simpl_run; [|done].
    destruct (decide (os_getpid env = pid s)) as [Hp|Hp].
    + rewrite bool_decide_false by (intros Hne; by apply Hne). simpl_run.
      intros [= <- <- <-]. split; [done|]. split; [done|]. split; [done|].
      by right.
    + rewrite bool_decide_true by done. destruct alive; simpl_run; [done|].
      destruct (adopt_just_read sha act (datetime_now env) (arg_user args)
                  (os_getpid env) d s Hget) as (d' & -> & Hg & Hh & Hc).
      simpl_run. intros [= <- <- <-]. split; [done|]. split; [done|].
      split; [done|]. by left.
  - rewrite create_absent by done; simpl_run.
    destruct (is_pid_alive (os_kill env) (os_getpid env)) as [alive|e];
      simpl_run; [|done].
    rewrite bool_decide_false by (intros Hne; by apply Hne). simpl_run.
    intros [= <- <- <-]. split; [|by auto].
    pose proof (get_after_create (arg_ref args) sha BUILD RUNNING
      (datetime_now env) (arg_user args) (os_getpid env) d Hget) as Hg.
    by rewrite create_absent in Hg.
Qed.

(** Whatever its outcome, [acquire] invokes no hook and completes nothing. *)
Lemma acquire_events sha act d :
  Forall claim_or_adopt_event (events (acquire env args sha act d)).
Proof.
  unfold acquire, bind, db_read, db_call, pure_call; simpl_run.
  destruct (SnapshotManager.get sha d) as [s|]; simpl_run;
    [|destruct (SnapshotManager.create _ _ _ _ _ _ _ _) as [d' [s|]];
      simpl_run].
  all: try (destruct (is_pid_alive _ _) as [alive|e]; simpl_run).
  all: try (destruct (bool_decide _); simpl_run).
  all: try (destruct alive; simpl_run).
  all: try (destruct (SnapshotManager.adopt_into_running_state _ _ _ _ _ _)
              as [d'' [s''|]]; simpl_run).
  all: repeat first [ done | constructor; [by (left + right)|] ].
Qed.

Lemma claim_events_no_hook evs :
  Forall claim_or_adopt_event evs → hook_events evs = [].
Proof.
  induction 1 as [|ev evs [-> | ->] _ IH]; [done|exact IH..].
Qed.

Lemma claim_events_not_in evs ev :
  Forall claim_or_adopt_event evs → ev ≠ EvCreate → ev ≠ EvAdopt → ev ∉ evs.
Proof.
  intros Hall H1 H2 Hin. rewrite Forall_forall in Hall.
  by destruct (Hall _ Hin).
Qed.

Lemma hook_events_not_in evs ev :
  Forall (λ ev, is_hook_event ev = true) evs → is_hook_event ev = false →
  ev ∉ evs.
Proof.
  intros Hall Hev Hin. rewrite Forall_forall in Hall.
  specialize (Hall _ Hin). congruence.
Qed.

Lemma get_same_table sha d d' :
  snapshot d' = snapshot d →
  SnapshotManager.get sha d' = SnapshotManager.get sha d.
Proof. unfold SnapshotManager.get. by intros ->. Qed.

(** Both drivers have one shape: preamble, [acquire], the action check, a
    pipeline of hooks, and a last step on the store. *)
Lemma failed_run act (pipeline : M unit) (finish : Snapshot → M unit) d st w e :
  hook_only pipeline →
  (∀ snap d', EvRaise st w e ∉ events (finish snap d')) →
  let run :=
    bind (preamble env args) (λ sha,
    bind (acquire env args sha act) (λ snap,
    bind (when (bool_decide (action snap ≠ act)) (sys_exit 0)) (λ _,
    bind pipeline (λ _, finish snap)))) in
  EvRaise st w e ∈ events (run d) →
  left_as_owned env args act d (run d) st w e.
Proof.
  intros Hpipe Hfin run. subst run.
  destruct (preamble env args d) as [[sha|e0] d0 ev0] eqn:Hpre;
    pose proof (preamble_silent d) as [Hd0 Hev0]; rewrite Hpre in Hd0, Hev0;
    cbn in Hd0, Hev0; subst d0 ev0.
  2:{ rewrite (bind_raise _ _ _ e0) by by rewrite Hpre.
      rewrite Hpre. by intros ?%elem_of_nil. }
  rewrite (bind_return _ _ _ sha) by by rewrite Hpre.
  rewrite Hpre; cbn [outcome final events app].
  pose proof (acquire_events sha act d) as Hacq.
  destruct (acquire env args sha act d) as [[snap|e1] d1 ev1] eqn:Hown;
    cbn [events] in Hacq.
  2:{ rewrite (bind_raise _ _ _ e1) by by rewrite Hown.
      rewrite Hown; cbn [outcome final events].
      intros Hin. by apply claim_events_not_in in Hin. }
  rewrite (bind_return _ _ _ snap) by by rewrite Hown.
  rewrite Hown; cbn [outcome final events].
  destruct (acquire_owned _ _ _ _ _ _ Hown) as (Hget & _ & _ & Hstate).
  destruct (decide (action snap = act)) as [Hact|Hact].
  2:{ rewrite bool_decide_true by done. cbn [when].
      rewrite (bind_raise _ _ _ (SystemExit 0)) by done.
      cbn [outcome final events sys_exit raise]. rewrite app_nil_r.
      intros Hin. by apply claim_events_not_in in Hin. }
  rewrite bool_decide_false by (intros Hne; by apply Hne). cbn [when].
  rewrite (bind_return _ _ _ tt) by done.
  cbn [outcome final events ret app].
  destruct (Hpipe d1) as (Hsnap & _ & Hhook & Hlast).
  destruct (outcome (pipeline d1)) as [[]|e2] eqn:Hout.
  - rewrite (bind_return _ _ _ tt) by done. cbn [outcome final events].
    intros Hin. exfalso.
    apply elem_of_app in Hin as [Hin|Hin];
      [by apply claim_events_not_in in Hin|].
    apply elem_of_app in Hin as [Hin|Hin]; [|by apply Hfin in Hin].
    destruct (Hlast _ _ _ Hin) as [Hr _]. congruence.
  - rewrite (bind_raise _ _ _ e2) by done. cbn [outcome final events].
    intros Hin. apply elem_of_app in Hin as [Hin|Hin];
      [by apply claim_events_not_in in Hin|].
    destruct (Hlast _ _ _ Hin) as [Hr [pre Hpre']].
    assert (e2 = e) as -> by congruence.
    split; [done|]. split.
    { exists (ev1 ++ pre). by rewrite Hpre', (assoc_L (++)). }
    split.
    { intros [Hc|Hc]%elem_of_app; [by apply claim_events_not_in in Hc|].
      by apply hook_events_not_in in Hc. }
    split.
    { intros [Hc|Hc]%elem_of_app; [by apply claim_events_not_in in Hc|].
      by apply hook_events_not_in in Hc. }
    exists sha, snap, d1, ev1. split; [by rewrite Hpre|]. split; [done|].
    split; [done|]. split; [done|].
    split; [by rewrite (get_same_table _ _ _ Hsnap)|].
    destruct Hstate as [?|(? & ? & _)]; auto.
Qed.

End DriverFacts.

Section DriverClaims.

Variable env : Env.
Variable args : Args.

(** C4, as the code has it.  When a hook implementation raises during a
    build or a release run, that raise is the last thing the run does (no
    later implementation or stage is called), the exception is the outcome of
    the run, neither [complete] nor [schedule_for_release] is called, and the
    [snapshot] table is left exactly as it was when ownership was
    established: the row of the run is [RUNNING] when the run created or
    adopted it, and when the run found its own pid on the row it keeps the
    state it was found in.  The run never marks it [COMPLETE]. *)
Theorem failed_pipeline_leaves_snapshot (d : Db) (st : Stage) (w : Who)
    (e : exception) :
  (EvRaise st w e ∈ events (build_handler env args d) →
     left_as_owned env args BUILD d (build_handler env args d) st w e) ∧
  (EvRaise st w e ∈ events (release_handler env args d) →
     left_as_owned env args RELEASE d (release_handler env args d) st w e).
Proof.
  split.
  - apply (failed_run env args BUILD (build_pipeline env)
      (λ snap,
         if negb (arg_schedule_release args)
         then bind (db_call EvComplete
                      (SnapshotManager.complete snap (datetime_now env)
                         (arg_user args)))
                   (λ _, sys_exit 0)
         else bind (db_call EvSchedule
                      (SnapshotManager.schedule_for_release snap
                         (datetime_now env) (arg_user args)))
                   (λ _, ret tt))).
    + apply hook_only_build_pipeline.
    + intros snap d'. unfold bind, db_call.
      destruct (negb (arg_schedule_release args)).
      * destruct (SnapshotManager.complete _ _ _ _) as [d'' r]; cbn.
        intros Hin%list_elem_of_singleton. discriminate.
      * destruct (SnapshotManager.schedule_for_release _ _ _ _) as [d'' r]; cbn.
        intros Hin%list_elem_of_singleton. discriminate.
  - apply (failed_run env args RELEASE (release_pipeline env)
      (λ snap,
         bind (db_call EvComplete
                 (SnapshotManager.complete snap (datetime_now env)
                    (arg_user args)))
              (λ _, ret tt))).
    + apply hook_only_release_pipeline.
    + intros snap d'. unfold bind, db_call.
      destruct (SnapshotManager.complete _ _ _ _) as [d'' r]; cbn.
      intros Hin%list_elem_of_singleton. discriminate.
Qed.

(** C7.  Once a driver owns the snapshot ([acquire] returned it), a snapshot
    whose action is not the one the driver runs makes the driver end with
    [sys.exit(0)] there and then: the store is as [acquire] left it and no
    hook of any stage has been invoked. *)
Theorem action_mismatch_exits_quietly (d d1 : Db) (sha : string)
    (snap : Snapshot) (evs : list Event) :
  outcome (preamble env args d) = Return sha →
  (acquire env args sha BUILD d = mkRun (Return snap) d1 evs →
   action snap ≠ BUILD →
     build_handler env args d = mkRun (Raise (SystemExit 0)) d1 evs ∧
     exit_status (outcome (build_handler env args d)) = 0 ∧
     hook_events (events (build_handler env args d)) = []) ∧
  (acquire env args sha RELEASE d = mkRun (Return snap) d1 evs →
   action snap ≠ RELEASE →
     release_handler env args d = mkRun (Raise (SystemExit 0)) d1 evs ∧
     exit_status (outcome (release_handler env args d)) = 0 ∧
     hook_events (events (release_handler env args d)) = []).
Proof.
  intros Hpre%preamble_returns. split; intros Hown Hact.
  - assert (build_handler env args d = mkRun (Raise (SystemExit 0)) d1 evs)
      as Hrun.
    { unfold build_handler.
      rewrite (bind_return _ _ _ sha) by by rewrite Hpre.
      rewrite Hpre; cbn [outcome final events app].
      rewrite (bind_return _ _ _ snap) by by rewrite Hown.
      rewrite Hown; cbn [outcome final events].
      rewrite bool_decide_true by done. cbn [when].
      rewrite (bind_raise _ _ _ (SystemExit 0)) by done.
      cbn [outcome final events sys_exit raise]. by rewrite app_nil_r. }
    rewrite Hrun. split; [done|]. split; [done|]. cbn [events].
    apply claim_events_no_hook.
    pose proof (acquire_events env args sha BUILD d) as Hev.
    by rewrite Hown in Hev.
  - assert (release_handler env args d = mkRun (Raise (SystemExit 0)) d1 evs)
      as Hrun.
    { unfold release_handler.
      rewrite (bind_return _ _ _ sha) by by rewrite Hpre.
      rewrite Hpre; cbn [outcome final events app].
      rewrite (bind_return _ _ _ snap) by by rewrite Hown.
      rewrite Hown; cbn [outcome final events].
      rewrite bool_decide_true by done. cbn [when].
      rewrite (bind_raise _ _ _ (SystemExit 0)) by done.
      cbn [outcome final events sys_exit raise]. by rewrite app_nil_r. }
    rewrite Hrun. split; [done|]. split; [done|]. cbn [events].
    apply claim_events_no_hook.
    pose proof (acquire_events env args sha RELEASE d) as Hev.
    by rewrite Hown in Hev.
Qed.

(** C8.  While the pid recorded on the snapshot of a ref_sha belongs to a
    live process other than the caller, a driver run for that ref_sha ends
    with [sys.exit(0)], has invoked no hook and called no operation of the
    coordinator, and leaves the whole store as it found it. *)
Theorem live_peer_blocks_second_run (d : Db) (sha : string) (s : Snapshot) :
  outcome (preamble env args d) = Return sha →
  SnapshotManager.get sha d = Some s →
  pid s ≠ os_getpid env →
  is_pid_alive (os_kill env) (pid s) = Return true →
  build_handler env args d = mkRun (Raise (SystemExit 0)) d [] ∧
  release_handler env args d = mkRun (Raise (SystemExit 0)) d [] ∧
  exit_status (Raise (SystemExit 0)) = 0.
Proof.
  intros Hpre%preamble_returns Hget Hpid Halive.
  split; [|split; [|done]].
  - unfold build_handler.
    rewrite (bind_return _ _ _ sha) by by rewrite Hpre.
    rewrite Hpre; cbn [outcome final events app].
    rewrite (bind_raise _ _ _ (SystemExit 0))
      by by rewrite (acquire_live_peer env args sha BUILD d s).
    by rewrite (acquire_live_peer env args sha BUILD d s).
  - unfold release_handler.
    rewrite (bind_return _ _ _ sha) by by rewrite Hpre.
    rewrite Hpre; cbn [outcome final events app].
    rewrite (bind_raise _ _ _ (SystemExit 0))
      by by rewrite (acquire_live_peer env args sha RELEASE d s).
    by rewrite (acquire_live_peer env args sha RELEASE d s).
Qed.


End DriverClaims.

(** ** The claims at sample inputs *)

Section Samples.

Import SnapshotManager Sample.


Lemma adopt_compare_and_swap_sample :
  pk_unique (snapshot db_running) ∧
  (∃ l1 l2, snapshot db_running = l1 ++ snap_running :: l2 ∧
     adopt_into_running_state snap_running BUILD 2000 "bob" 200 db_running
       = (mkDb (l1 ++ mkSnapshot "main" "abc123" BUILD RUNNING 1000 "alice"
                        (Some 2000) (Some "bob") 200 1000 None :: l2) [] [],
          Some (mkSnapshot "main" "abc123" BUILD RUNNING 1000 "alice"
                  (Some 2000) (Some "bob") 200 1000 None)) ∧
     get "abc123"
         (adopt_into_running_state snap_running BUILD 2000 "bob" 200
            db_running).1
       = Some (mkSnapshot "main" "abc123" BUILD RUNNING 1000 "alice"
                 (Some 2000) (Some "bob") 200 1000 None)) ∧
  adopt_into_running_state snap_complete BUILD 2000 "bob" 200 db_running
    = (db_running, None).
Proof.
  assert (pk_unique (snapshot db_running)) as Hpk by apply NoDup_singleton.
  split; [exact Hpk|]. split.
  - apply (proj1 (adopt_compare_and_swap snap_running BUILD 2000 "bob" 200
                    db_running Hpk) snap_running); reflexivity.
  - apply (proj2 (adopt_compare_and_swap snap_complete BUILD 2000 "bob" 200
                    db_running Hpk)).
    intros r [= <-]. discriminate.
Defined.

Lemma complete_compare_and_swap_sample :
  pk_unique (snapshot db_running) ∧
  (∃ l1 l2, snapshot db_running = l1 ++ snap_running :: l2 ∧
     complete snap_running 3000 "alice" db_running
       = (mkDb (l1 ++ mkSnapshot "main" "abc123" BUILD COMPLETE 1000 "alice"
                        (Some 3000) (Some "alice") 100 3000 None :: l2) [] [],
          Some (mkSnapshot "main" "abc123" BUILD COMPLETE 1000 "alice"
                  (Some 3000) (Some "alice") 100 3000 None)) ∧
     get "abc123" (complete snap_running 3000 "alice" db_running).1
       = Some (mkSnapshot "main" "abc123" BUILD COMPLETE 1000 "alice"
                 (Some 3000) (Some "alice") 100 3000 None)) ∧
  complete snap_scheduled 3000 "alice" db_running = (db_running, None).
Proof.
  assert (pk_unique (snapshot db_running)) as Hpk by apply NoDup_singleton.
  split; [exact Hpk|]. split.
  - apply (proj1 (complete_compare_and_swap snap_running 3000 "alice"
                    db_running Hpk) snap_running); reflexivity.
  - apply (proj2 (complete_compare_and_swap snap_scheduled 3000 "alice"
                    db_running Hpk)).
    intros r [= <-]. discriminate.
Defined.

(** C3 as stated fails: a successful [complete] of a [RUNNING] snapshot
    returns a [COMPLETE] row whose completion column [etd] is still unset. *)
Lemma complete_does_not_stamp_etd :
  ∃ s', (complete snap_running 3000 "alice" db_running).2 = Some s' ∧
    get "abc123" (complete snap_running 3000 "alice" db_running).1 = Some s' ∧
    state s' = COMPLETE ∧ etd s' = None ∧ etd s' ≠ Some 3000.
Proof. eexists. repeat split; [reflexivity..|discriminate]. Qed.

(** C5 as stated fails: a successful [create] changes the [snapshot] table
    and appends nothing to [snapshot_history]. *)
Lemma create_appends_no_history :
  (create "main" "abc123" BUILD RUNNING 1000 "alice" 100 empty_db).2
    = Some snap_running ∧
  snapshot (create "main" "abc123" BUILD RUNNING 1000 "alice" 100 empty_db).1
    = [snap_running] ∧
  snapshot_history
    (create "main" "abc123" BUILD RUNNING 1000 "alice" 100 empty_db).1 = [].
Proof. repeat split. Qed.

(** C9 at a fresh key and at a stored one: the round trip of the claim ends
    in [TypeError] with nothing stored, and a stored entry is neither
    overwritten nor readable through [Cache.get]. *)
Lemma cache_set_get_raises_sample :
  (Cache.set "tailwind" "v1" empty_db = (empty_db, Raise TypeError) ∧
   Cache.get "tailwind" (Cache.set "tailwind" "v1" empty_db).1
     = (empty_db, Return None)) ∧
  ((Cache.set "tailwind" "v2" db_cached).2 = Raise IntegrityError ∧
   (Cache.set "tailwind" "v2" db_cached).1 = db_cached ∧
   Cache.get "tailwind" db_cached = (db_cached, Raise TypeError)).
Proof.
  destruct (cache_set_get_raises "tailwind" "v1" empty_db)
    as (Hstore & Hfresh & _).
  destruct (cache_set_get_raises "tailwind" "v2" db_cached)
    as (Hstore' & _ & Hstored & _).
  split.
  - destruct Hfresh as (Hset & _ & Hget).
    { intros row Hin. by apply not_elem_of_nil in Hin. }
    split; [|exact Hget].
    rewrite <- Hstore at 2. rewrite <- Hset. by destruct (Cache.set _ _ _).
  - destruct Hstored as (Hset & Hget).
    { exists (mkCacheObject "tailwind" "v1"). split; [|done].
      apply list_elem_of_here. }
    by split; [|split].
Defined.

Lemma is_pid_alive_classifies_sample :
  is_pid_alive process_table 0 = Return false ∧
  is_pid_alive process_table 101 = Return false ∧
  is_pid_alive process_table 100 = Return true ∧
  is_pid_alive process_table 102 = Return true ∧
  is_pid_alive process_table 103 = Raise (OSError 22).
Proof.
  split; [|split; [|split; [|split]]].
  - destruct (is_pid_alive_classifies process_table 0) as (H & _).
    apply H. lia.
  - destruct (is_pid_alive_classifies process_table 101) as (_ & H & _).
    apply H; [lia|reflexivity].
  - destruct (is_pid_alive_classifies process_table 100) as (_ & _ & H & _).
    apply H; [lia|reflexivity].
  - destruct (is_pid_alive_classifies process_table 102)
      as (_ & _ & _ & H & _).
    apply H; [lia|reflexivity].
  - destruct (is_pid_alive_classifies process_table 103)
      as (_ & _ & _ & _ & H).
    apply H; [lia|reflexivity|discriminate..].
Defined.

(** C4 as stated fails: a build run by pid 100 that finds its own pid on a
    [COMPLETE] snapshot runs the pipeline; when the third implementation of
    [build] raises, the row it leaves is [COMPLETE], not [RUNNING]. *)
Lemma failed_build_leaves_complete_row :
  EvRaise build (Plugin 2) (OtherError "boom")
    ∈ events (build_handler (env_of 100 process_table) args_main db_complete) ∧
  outcome (build_handler (env_of 100 process_table) args_main db_complete)
    = Raise (OtherError "boom") ∧
  state <$> get "abc123"
      (final (build_handler (env_of 100 process_table) args_main db_complete))
    = Some COMPLETE ∧
  state <$> get "abc123"
      (final (build_handler (env_of 100 process_table) args_main db_complete))
    ≠ Some RUNNING.
Proof.
  split; [|split; [|split]].
  - vm_compute. repeat constructor.
  - vm_compute. reflexivity.
  - vm_compute. reflexivity.
  - vm_compute. discriminate.
Qed.

Lemma failed_pipeline_leaves_snapshot_sample :
  left_as_owned (env_of 200 process_table_100_dead) args_main BUILD db_running
    (build_handler (env_of 200 process_table_100_dead) args_main db_running)
    build (Plugin 2) (OtherError "boom") ∧
  left_as_owned (env_of 200 process_table_100_dead) args_main RELEASE
    db_scheduled
    (release_handler (env_of 200 process_table_100_dead) args_main db_scheduled)
    release (Plugin 2) (OtherError "boom").
Proof.
  split.
  - apply (proj1 (failed_pipeline_leaves_snapshot
                    (env_of 200 process_table_100_dead) args_main db_running
                    build (Plugin 2) (OtherError "boom"))).
    vm_compute. repeat constructor.
  - apply (proj2 (failed_pipeline_leaves_snapshot
                    (env_of 200 process_table_100_dead) args_main db_scheduled
                    release (Plugin 2) (OtherError "boom"))).
    vm_compute. repeat constructor.
Defined.

Lemma action_mismatch_exits_quietly_sample :
  (build_handler (env_of 100 process_table) args_main db_scheduled
     = mkRun (Raise (SystemExit 0)) db_scheduled [] ∧
   exit_status
     (outcome (build_handler (env_of 100 process_table) args_main db_scheduled))
     = 0 ∧
   hook_events
     (events (build_handler (env_of 100 process_table) args_main db_scheduled))
     = []) ∧
  (release_handler (env_of 100 process_table) args_main db_running
     = mkRun (Raise (SystemExit 0)) db_running [] ∧
   exit_status
     (outcome (release_handler (env_of 100 process_table) args_main db_running))
     = 0 ∧
   hook_events
     (events (release_handler (env_of 100 process_table) args_main db_running))
     = []).
Proof.
  split.
  - apply (proj1 (action_mismatch_exits_quietly (env_of 100 process_table)
                    args_main db_scheduled db_scheduled "abc123"
                    snap_scheduled [] eq_refl));
      [vm_compute; reflexivity|discriminate].
  - apply (proj2 (action_mismatch_exits_quietly (env_of 100 process_table)
                    args_main db_running db_running "abc123"
                    snap_running [] eq_refl));
      [vm_compute; reflexivity|discriminate].
Defined.

Lemma live_peer_blocks_second_run_sample :
  build_handler (env_of 200 process_table) args_main db_running
    = mkRun (Raise (SystemExit 0)) db_running [] ∧
  release_handler (env_of 200 process_table) args_main db_running
    = mkRun (Raise (SystemExit 0)) db_running [] ∧
  exit_status (Raise (SystemExit 0)) = 0.
Proof.
  apply (live_peer_blocks_second_run (env_of 200 process_table) args_main
           db_running "abc123" snap_running);
    [reflexivity|reflexivity|discriminate|reflexivity].
Defined.


End Samples.

(** * Further properties of the coordinator *)

Section CoordinatorMore.

Import SnapshotManager Sample.

Implicit Types (d : Db) (s r : Snapshot) (k : string).

(** X1.  Under the primary key, [schedule_for_release] is a compare-and-swap
    on the row of [snapshot.ref_sha]: if its stored state equals the state
    the caller observed, that row alone becomes a [SCHEDULED] [RELEASE] with
    fresh [updated_at]/[updated_by] and [efd], its pid and every other column
    and row staying as they were, and it is returned; otherwise the result is
    [None] and the store is unchanged. *)
Theorem schedule_compare_and_swap (s : Snapshot) (now : datetime)
    (user : string) (d : Db) :
  pk_unique (snapshot d) →
  let res := schedule_for_release s now user d in
  (∀ r, get (ref_sha s) d = Some r → state r = state s →
     let r' := mkSnapshot (ref r) (ref_sha r) RELEASE SCHEDULED
                 (created_at r) (created_by r) (Some now) (Some user)
                 (pid r) now (etd r) in
     ∃ l1 l2, snapshot d = l1 ++ r :: l2 ∧
       res = (mkDb (l1 ++ r' :: l2) (snapshot_history d) (cache d), Some r') ∧
       get (ref_sha s) res.1 = Some r') ∧
  ((∀ r, get (ref_sha s) d = Some r → state r ≠ state s) → res = (d, None)).
Proof.
  intros Hpk res. split.
  - intros r Hget Hst r'.
    by apply (cas_call_hit (schedule_set now user) s d r).
  - intros Hmiss. by apply (cas_call_miss (schedule_set now user) s d).
Qed.

Lemma schedule_compare_and_swap_sample :
  pk_unique (snapshot db_complete) ∧
  (∃ l1 l2, snapshot db_complete = l1 ++ snap_complete :: l2 ∧
     schedule_for_release snap_complete 3000 "bob" db_complete
       = (mkDb (l1 ++ mkSnapshot "main" "abc123" RELEASE SCHEDULED 1000
                        "alice" (Some 3000) (Some "bob") 100 3000 None :: l2)
               [] [],
          Some (mkSnapshot "main" "abc123" RELEASE SCHEDULED 1000 "alice"
                  (Some 3000) (Some "bob") 100 3000 None)) ∧
     get "abc123" (schedule_for_release snap_complete 3000 "bob" db_complete).1
       = Some (mkSnapshot "main" "abc123" RELEASE SCHEDULED 1000 "alice"
                 (Some 3000) (Some "bob") 100 3000 None)) ∧
  schedule_for_release snap_running 3000 "bob" db_complete
    = (db_complete, None).
Proof.
  assert (pk_unique (snapshot db_complete)) as Hpk by apply NoDup_singleton.
  split; [exact Hpk|]. split.
  - apply (proj1 (schedule_compare_and_swap snap_complete 3000 "bob"
                    db_complete Hpk) snap_complete); reflexivity.
  - apply (proj2 (schedule_compare_and_swap snap_running 3000 "bob"
                    db_complete Hpk)).
    intros r [= <-]. discriminate.
Defined.

Lemma cache_set_snapshot k v d :
  snapshot (Cache.set k v d).1 = snapshot d ∧
  snapshot_history (Cache.set k v d).1 = snapshot_history d.
Proof. by rewrite cache_set_store. Qed.

Lemma create_cache rf k a st now user p d :
  cache (create rf k a st now user p d).1 = cache d.
Proof. unfold create. by destruct (Sql.select _ _). Qed.

Lemma cas_ops_cache s a now user p d :
  cache (adopt_into_running_state s a now user p d).1 = cache d ∧
  cache (complete s now user d).1 = cache d ∧
  cache (schedule_for_release s now user d).1 = cache d.
Proof.
  split; [|split].
  - exact (proj2 (cas_call_history (adopt_set a now user p) s d)).
  - exact (proj2 (cas_call_history (complete_set now user) s d)).
  - exact (proj2 (cas_call_history (schedule_set now user) s d)).
Qed.

(** X2.  The two uniqueness constraints of the schema, [PRIMARY KEY(ref_sha)]
    on [snapshot] and [UNIQUE(key)] on [cache], hold after every operation of
    [SnapshotManager] and of [Cache] on a store in which they hold. *)
Theorem constraints_preserved (rf k : string) (s : Snapshot)
    (a : ProcessAction) (st : ProcessState) (now : datetime) (user : string)
    (p : Z) (ck cv : string) (d : Db) :
  pk_unique (snapshot d) → ucon_cache (cache d) →
  ∀ d',
    d' ∈ [ (create rf k a st now user p d).1;
           (adopt_into_running_state s a now user p d).1;
           (complete s now user d).1;
           (schedule_for_release s now user d).1;
           (Cache.set ck cv d).1 ] →
    pk_unique (snapshot d') ∧ ucon_cache (cache d').
Proof.
  intros Hpk Hu d' Hin.
  repeat (apply elem_of_cons in Hin as [-> | Hin]).
  - split; [by apply create_pk_unique|by rewrite create_cache].
  - split; [by apply (cas_call_pk_unique (adopt_set a now user p))|].
    by destruct (cas_ops_cache s a now user p d) as (-> & _ & _).
  - split; [by apply (cas_call_pk_unique (complete_set now user))|].
    by destruct (cas_ops_cache s a now user p d) as (_ & -> & _).
  - split; [by apply (cas_call_pk_unique (schedule_set now user))|].
    by destruct (cas_ops_cache s a now user p d) as (_ & _ & ->).
  - split; [by rewrite (proj1 (cache_set_snapshot ck cv d))|].
    by apply cache_set_ucon.
  - by apply elem_of_nil in Hin.
Qed.

Lemma constraints_preserved_sample :
  pk_unique
    (snapshot (create "main" "def456" BUILD RUNNING 4000 "bob" 200 db_running).1)
  ∧ ucon_cache
      (cache (create "main" "def456" BUILD RUNNING 4000 "bob" 200 db_running).1).
Proof.
  apply (constraints_preserved "main" "def456" snap_running BUILD RUNNING
           4000 "bob" 200 "tailwind" "v1" db_running).
  - apply NoDup_singleton.
  - apply NoDup_nil_2.
  - apply list_elem_of_here.
Defined.

(** A conditional update leaves the rows of every other key alone. *)
Lemma update_other_key (tbl : list Snapshot) k k' st (g : Snapshot → Snapshot) :
  (∀ x, ref_sha (g x) = ref_sha x) → k' ≠ k →
  filter (λ x, ref_sha x = k') (Sql.update (cas_where k st) g tbl).1
    = filter (λ x, ref_sha x = k') tbl.
Proof.
  intros Hg Hne. induction tbl as [|x tbl IH]; [done|].
  rewrite update_cons. destruct (decide (cas_where k st x)) as [[Hk _]|_];
    cbn [fst].
  - rewrite !filter_cons_False by (rewrite ?Hg; congruence). exact IH.
  - destruct (decide (ref_sha x = k')).
    + rewrite !filter_cons_True by done. by rewrite IH.
    + rewrite !filter_cons_False by done. exact IH.
Qed.

Lemma cas_call_other_key g s d k' :
  (∀ x, ref_sha (g x) = ref_sha x) →
  k' ≠ ref_sha s → get k' (cas_call g s d).1 = get k' d.
Proof.
  intros Hg Hne. unfold get, Sql.fetchone, Sql.select, cas_call.
  pose proof (update_other_key (snapshot d) (ref_sha s) k' (state s) g Hg Hne)
    as Hup.
  destruct (Sql.update _ _ _) as [tbl rows]. cbn [fst snapshot] in *.
  by rewrite Hup.
Qed.

Lemma create_other_key rf k k' a st now user p d :
  k' ≠ k → get k' (create rf k a st now user p d).1 = get k' d.
Proof.
  intros Hne. unfold create, Sql.select.
  destruct (filter _ (snapshot d)) eqn:Hf; [|done].
  unfold get, Sql.fetchone, Sql.select; cbn [fst snapshot].
  rewrite filter_app, filter_cons_False by (cbn; congruence).
  by rewrite filter_nil, app_nil_r.
Qed.

(** X3.  Rows of distinct ref_sha values are independent: whatever an
    operation of the coordinator does for one ref_sha, a lookup of any other
    ref_sha returns what it returned before. *)
Theorem other_rows_untouched (rf k k' : string) (s : Snapshot)
    (a : ProcessAction) (st : ProcessState) (now : datetime) (user : string)
    (p : Z) (d : Db) :
  (k' ≠ k → get k' (create rf k a st now user p d).1 = get k' d) ∧
  (k' ≠ ref_sha s →
     get k' (adopt_into_running_state s a now user p d).1 = get k' d ∧
     get k' (complete s now user d).1 = get k' d ∧
     get k' (schedule_for_release s now user d).1 = get k' d).
Proof.
  split.
  - apply create_other_key.
  - intros Hne. split; [|split].
    + by apply (cas_call_other_key (adopt_set a now user p) s d k').
    + by apply (cas_call_other_key (complete_set now user) s d k').
    + by apply (cas_call_other_key (schedule_set now user) s d k').
Qed.

Lemma other_rows_untouched_sample :
  get "abc123" (create "main" "def456" BUILD RUNNING 4000 "bob" 200 db_running).1
    = get "abc123" db_running ∧
  get "def456" (adopt_into_running_state snap_running BUILD 4000 "bob" 200
                  (create "main" "def456" BUILD RUNNING 4000 "bob" 200
                     db_running).1).1
    = get "def456"
        (create "main" "def456" BUILD RUNNING 4000 "bob" 200 db_running).1.
Proof.
  split.
  - apply (other_rows_untouched "main" "def456" "abc123" snap_running BUILD
             RUNNING 4000 "bob" 200 db_running). discriminate.
  - apply (proj2 (other_rows_untouched "main" "def456" "def456" snap_running
                    BUILD RUNNING 4000 "bob" 200
                    (create "main" "def456" BUILD RUNNING 4000 "bob" 200
                       db_running).1)). discriminate.
Defined.

(** Two conditional updates in a row for one observed snapshot: the first
    finds the state it expects; the second finds it only if the first wrote
    that same state back. *)
Lemma cas_twice f1 f2 s d r :
  pk_unique (snapshot d) →
  get (ref_sha s) d = Some r → state r = state s →
  (∀ x, ref_sha (f1 x) = ref_sha x) → (∀ x, ref_sha (f2 x) = ref_sha x) →
  (cas_call f1 s d).2 = Some (f1 r) ∧
  (state (f1 r) = state s →
     (cas_call f2 s (cas_call f1 s d).1).2 = Some (f2 (f1 r)) ∧
     get (ref_sha s) (cas_call f2 s (cas_call f1 s d).1).1
       = Some (f2 (f1 r))) ∧
  (state (f1 r) ≠ state s →
     cas_call f2 s (cas_call f1 s d).1 = ((cas_call f1 s d).1, None)).
Proof.
  intros Hpk Hget Hst Hf1 Hf2.
  pose proof (cas_call_pk_unique f1 s d Hf1 Hpk) as Hpk1.
  destruct (cas_call_hit f1 s d r Hpk Hget Hst Hf1)
    as (l1 & l2 & _ & Hres & Hget1).
  split; [by rewrite Hres|]. split.
  - intros Hst1.
    destruct (cas_call_hit f2 s _ (f1 r) Hpk1 Hget1 Hst1 Hf2)
      as (l1' & l2' & _ & Hres2 & Hget2).
    split; [by rewrite Hres2|exact Hget2].
  - intros Hst1. apply cas_call_miss; [done|].
    intros r1 Hr1. rewrite Hget1 in Hr1. by injection Hr1 as <-.
Qed.

(** X4.  Two adoptions of one observed snapshot, one after the other: the
    first succeeds; the second is refused when the observed state was not
    [RUNNING], and succeeds as well when it was [RUNNING], its action and pid
    replacing those the first one wrote. *)
Theorem racing_adoptions (s r : Snapshot) (a1 a2 : ProcessAction)
    (now1 now2 : datetime) (user1 user2 : string) (p1 p2 : Z) (d : Db) :
  pk_unique (snapshot d) →
  get (ref_sha s) d = Some r → state r = state s →
  let first := adopt_into_running_state s a1 now1 user1 p1 d in
  let second := adopt_into_running_state s a2 now2 user2 p2 first.1 in
  first.2 = Some (mkSnapshot (ref r) (ref_sha r) a1 RUNNING (created_at r)
                    (created_by r) (Some now1) (Some user1) p1 (efd r) (etd r))
  ∧ (state s ≠ RUNNING → second = (first.1, None))
  ∧ (state s = RUNNING →
       second.2 = Some (mkSnapshot (ref r) (ref_sha r) a2 RUNNING
                          (created_at r) (created_by r) (Some now2)
                          (Some user2) p2 (efd r) (etd r)) ∧
       get (ref_sha s) second.1 = second.2).
Proof.
  intros Hpk Hget Hst first second.
  destruct (cas_twice (adopt_set a1 now1 user1 p1) (adopt_set a2 now2 user2 p2)
              s d r Hpk Hget Hst) as (H1 & Hhit & Hmiss); [done..|].
  split; [exact H1|]. split.
  - intros Hs. apply Hmiss. cbn. congruence.
  - intros Hs. destruct Hhit as [H2 H3]; [by cbn|].
    subst first second.
    unfold adopt_into_running_state. fold (cas_call (adopt_set a1 now1 user1 p1) s d).
    split; [exact H2|]. 
    change (get (ref_sha s)
              (cas_call (adopt_set a2 now2 user2 p2) s
                 (cas_call (adopt_set a1 now1 user1 p1) s d).1).1
            = (cas_call (adopt_set a2 now2 user2 p2) s
                 (cas_call (adopt_set a1 now1 user1 p1) s d).1).2).
    by rewrite H2, H3.
Qed.

Lemma racing_adoptions_sample :
  (adopt_into_running_state snap_complete BUILD 4001 "carol" 300
     (adopt_into_running_state snap_complete BUILD 4000 "bob" 200
        db_complete).1
   = ((adopt_into_running_state snap_complete BUILD 4000 "bob" 200
         db_complete).1, None)) ∧
  (adopt_into_running_state snap_running BUILD 4001 "carol" 300
     (adopt_into_running_state snap_running BUILD 4000 "bob" 200
        db_running).1).2
   = Some (mkSnapshot "main" "abc123" BUILD RUNNING 1000 "alice" (Some 4001)
             (Some "carol") 300 1000 None).
Proof.
  split.
  - apply (racing_adoptions snap_complete snap_complete BUILD BUILD 4000 4001
             "bob" "carol" 200 300 db_complete);
      [apply NoDup_singleton|reflexivity|reflexivity|discriminate].
  - apply (racing_adoptions snap_running snap_running BUILD BUILD 4000 4001
             "bob" "carol" 200 300 db_running);
      [apply NoDup_singleton|reflexivity..].
Defined.

(** X5.  Two [complete] calls for one observed snapshot that is not yet
    [COMPLETE]: the first marks the row [COMPLETE]; the second, and any
    adoption or scheduling still based on the observed snapshot, returns
    [None] and changes nothing. *)
Theorem racing_completions (s r : Snapshot) (a : ProcessAction)
    (now1 now2 : datetime) (user1 user2 : string) (p : Z) (d : Db) :
  pk_unique (snapshot d) →
  get (ref_sha s) d = Some r → state r = state s → state s ≠ COMPLETE →
  let first := complete s now1 user1 d in
  first.2 = Some (mkSnapshot (ref r) (ref_sha r) (action r) COMPLETE
                    (created_at r) (created_by r) (Some now1) (Some user1)
                    (pid r) now1 (etd r)) ∧
  complete s now2 user2 first.1 = (first.1, None) ∧
  adopt_into_running_state s a now2 user2 p first.1 = (first.1, None) ∧
  schedule_for_release s now2 user2 first.1 = (first.1, None).
Proof.
  intros Hpk Hget Hst Hs first.
  split; [|split; [|split]].
  - by destruct (cas_twice (complete_set now1 user1) (complete_set now2 user2)
                   s d r Hpk Hget Hst) as (H1 & _).
  - destruct (cas_twice (complete_set now1 user1) (complete_set now2 user2)
                s d r Hpk Hget Hst) as (_ & _ & Hmiss); [done..|].
    apply Hmiss. cbn. congruence.
  - destruct (cas_twice (complete_set now1 user1) (adopt_set a now2 user2 p)
                s d r Hpk Hget Hst) as (_ & _ & Hmiss); [done..|].
    apply Hmiss. cbn. congruence.
  - destruct (cas_twice (complete_set now1 user1) (schedule_set now2 user2)
                s d r Hpk Hget Hst) as (_ & _ & Hmiss); [done..|].
    apply Hmiss. cbn. congruence.
Qed.

Lemma racing_completions_sample :
  (complete snap_running 3000 "alice" db_running).2
    = Some (mkSnapshot "main" "abc123" BUILD COMPLETE 1000 "alice" (Some 3000)
              (Some "alice") 100 3000 None) ∧
  complete snap_running 3001 "bob" (complete snap_running 3000 "alice" db_running).1
    = ((complete snap_running 3000 "alice" db_running).1, None) ∧
  adopt_into_running_state snap_running BUILD 3001 "bob" 200
      (complete snap_running 3000 "alice" db_running).1
    = ((complete snap_running 3000 "alice" db_running).1, None) ∧
  schedule_for_release snap_running 3001 "bob"
      (complete snap_running 3000 "alice" db_running).1
    = ((complete snap_running 3000 "alice" db_running).1, None).
Proof.
  apply (racing_completions snap_running snap_running BUILD 3000 3001 "alice"
           "bob" 200 db_running);
    [apply NoDup_singleton|reflexivity|reflexivity|discriminate].
Defined.

(** X6.  The compare-and-swap compares the state only, not the pid: after
    another process has adopted a [RUNNING] snapshot, a [complete] by the
    process that still holds the snapshot as it read it succeeds, and marks
    [COMPLETE] the row that now carries the adopter's action and pid. *)
Theorem stale_owner_completes (s r : Snapshot) (a : ProcessAction)
    (now1 now2 : datetime) (user1 user2 : string) (p : Z) (d : Db) :
  pk_unique (snapshot d) →
  get (ref_sha s) d = Some r → state r = state s → state s = RUNNING →
  let adopted := adopt_into_running_state s a now1 user1 p d in
  let completed := complete s now2 user2 adopted.1 in
  completed.2 = Some (mkSnapshot (ref r) (ref_sha r) a COMPLETE (created_at r)
                        (created_by r) (Some now2) (Some user2) p now2 (etd r))
  ∧ get (ref_sha s) completed.1 = completed.2.
Proof.
  intros Hpk Hget Hst Hs adopted completed.
  destruct (cas_twice (adopt_set a now1 user1 p) (complete_set now2 user2)
              s d r Hpk Hget Hst) as (_ & Hhit & _); [done..|].
  destruct Hhit as [H2 H3]; [by cbn|].
  split; [exact H2|].
  change (get (ref_sha s)
            (cas_call (complete_set now2 user2) s
               (cas_call (adopt_set a now1 user1 p) s d).1).1
          = (cas_call (complete_set now2 user2) s
               (cas_call (adopt_set a now1 user1 p) s d).1).2).
  by rewrite H2, H3.
Qed.

Lemma stale_owner_completes_sample :
  (complete snap_running 4500 "alice"
     (adopt_into_running_state snap_running BUILD 4000 "bob" 200 db_running).1).2
    = Some (mkSnapshot "main" "abc123" BUILD COMPLETE 1000 "alice" (Some 4500)
              (Some "alice") 200 4500 None) ∧
  get "abc123"
    (complete snap_running 4500 "alice"
       (adopt_into_running_state snap_running BUILD 4000 "bob" 200
          db_running).1).1
    = (complete snap_running 4500 "alice"
         (adopt_into_running_state snap_running BUILD 4000 "bob" 200
            db_running).1).2.
Proof.
  apply (stale_owner_completes snap_running snap_running BUILD 4000 4500 "bob"
           "alice" 200 db_running);
    [apply NoDup_singleton|reflexivity..].
Defined.

End CoordinatorMore.

(** * Further properties of the hook pipeline *)

Section PipelineMore.

Import Sample.




Section RaisedWithin.

Context (E : exception → Prop).









End RaisedWithin.



Lemma plugin_calls_cons st i n :
  plugin_calls st i (S n) = EvCall st (Plugin i) :: plugin_calls st (S i) n.
Proof. reflexivity. Qed.

Lemma with_cache_same d : with_cache d (cache d) = d.
Proof. by destruct d. Qed.

(** A prefix of implementations that all return, then the rest. *)
Lemma call_impls_app st hs1 rest :
  ∀ i d c1, all_return hs1 (cache d) = Some c1 →
    call_impls st i (hs1 ++ rest) d =
      let r := call_impls st (i + length hs1) rest (with_cache d c1) in
      mkRun (outcome r) (final r)
            (plugin_calls st i (length hs1) ++ events r).
Proof.
  induction hs1 as [|h hs1 IH]; intros i d c1 Hall; cbn [all_return] in Hall.
  - injection Hall as <-. rewrite with_cache_same, Nat.add_0_r. cbn.
    by destruct (call_impls st i rest d).
  - destruct (h (cache d)) as [[] c'|e c'] eqn:Hh; [|done].
    cbn [app call_impls length].
    assert (call_hook st (Plugin i) h d
            = mkRun (Return tt) (mkDb (snapshot d) (snapshot_history d) c')
                    [EvCall st (Plugin i)]) as Hc
      by (unfold call_hook; by rewrite Hh).
    rewrite (bind_return _ _ _ tt) by by rewrite Hc.
    rewrite Hc. cbn [outcome final events].
    rewrite (IH (S i) (mkDb (snapshot d) (snapshot_history d) c') c1 Hall).
    cbn [outcome final events with_cache snapshot snapshot_history]. cbn zeta.
    replace (S i + length hs1)%nat with (i + S (length hs1))%nat by lia.
    by rewrite plugin_calls_cons.
Qed.

Lemma first_result_app hs1 rest :
  ∀ i d c1, declined hs1 (cache d) = Some c1 →
    first_result i (hs1 ++ rest) d =
      let r := first_result (i + length hs1) rest (with_cache d c1) in
      mkRun (outcome r) (final r)
            (plugin_calls configure i (length hs1) ++ events r).
Proof.
  induction hs1 as [|h hs1 IH]; intros i d c1 Hall; cbn [declined] in Hall.
  - injection Hall as <-. rewrite with_cache_same, Nat.add_0_r. cbn.
    by destruct (first_result i rest d).
  - destruct (h (cache d)) as [[cfg|] c'|e c'] eqn:Hh; [done| |done].
    cbn [app first_result length].
    assert (call_hook configure (Plugin i) h d
            = mkRun (Return None) (mkDb (snapshot d) (snapshot_history d) c')
                    [EvCall configure (Plugin i)]) as Hc
      by (unfold call_hook; by rewrite Hh).
    rewrite (bind_return _ _ _ None) by by rewrite Hc.
    rewrite Hc. cbn [outcome final events].
    rewrite (IH (S i) (mkDb (snapshot d) (snapshot_history d) c') c1 Hall).
    cbn [outcome final events with_cache snapshot snapshot_history]. cbn zeta.
    replace (S i + length hs1)%nat with (i + S (length hs1))%nat by lia.
    by rewrite plugin_calls_cons.
Qed.

Lemma plugin_calls_snoc st i n :
  plugin_calls st i (S n) = plugin_calls st i n ++ [EvCall st (Plugin (i + n))].
Proof. unfold plugin_calls. by rewrite seq_S, fmap_app. Qed.

(** X9.  [configure] is a first-result hook under the base wrapper: the
    configuration comes from the first implementation, in call order, that
    returns one; those before it were each called once and returned [None],
    and those after it are never called.  When every implementation returns
    [None] the wrapper itself fails, with a [TypeError]. *)
Theorem configure_takes_first_result
    (hs1 hs2 : list (Hook (option Config))) (h : Hook (option Config))
    (d : Db) (c1 cf : list CacheObject) (config : Config) (p : string) :
  declined hs1 (cache d) = Some c1 →
  (h c1 = Returns (Some config) cf →
   config !! "build_path" = Some (PyPath p) →
     hook_configure (hs1 ++ h :: hs2) d =
       mkRun (Return config) (with_cache d cf)
             (EvCall configure Base
                :: plugin_calls configure 0 (S (length hs1)))) ∧
  hook_configure hs1 d =
    mkRun (Raise TypeError) (with_cache d c1)
          (EvCall configure Base :: plugin_calls configure 0 (length hs1)
             ++ [EvRaise configure Base TypeError]).
Proof.
  intros Hdecl. split.
  - intros Hh Hp. unfold hook_configure.
    rewrite (first_result_app hs1 (h :: hs2) 0 d c1 Hdecl).
    cbn [first_result Nat.add]. cbn zeta.
    rewrite (bind_return _ _ _ (Some config))
      by (unfold call_hook; cbn [cache with_cache]; by rewrite Hh).
    unfold call_hook; cbn [cache with_cache]. rewrite Hh.
    cbn [outcome final events ret]. unfold validate_config. rewrite Hp.
    rewrite app_nil_r, plugin_calls_snoc. done.
  - unfold hook_configure.
    pose proof (first_result_app hs1 [] 0 d c1 Hdecl) as Hfr.
    rewrite app_nil_r in Hfr. rewrite Hfr. cbn. by rewrite app_nil_r.
Qed.

Lemma configure_takes_first_result_sample :
  (hook_configure
     [ (λ c, Returns None (c ++ [mkCacheObject "seen" "1"]));
       (λ c, Returns (Some config_abc) c);
       (λ c, Raises (OtherError "never called") c) ] empty_db
   = mkRun (Return config_abc)
       (with_cache empty_db [mkCacheObject "seen" "1"])
       (EvCall configure Base :: plugin_calls configure 0 2)) ∧
  hook_configure [ (λ c, Returns None (c ++ [mkCacheObject "seen" "1"])) ]
      empty_db
   = mkRun (Raise TypeError) (with_cache empty_db [mkCacheObject "seen" "1"])
       (EvCall configure Base :: plugin_calls configure 0 1
          ++ [EvRaise configure Base TypeError]).
Proof.
  split.
  - apply (configure_takes_first_result
             [ (λ c, Returns None (c ++ [mkCacheObject "seen" "1"])) ]
             [ (λ c, Raises (OtherError "never called") c) ]
             (λ c, Returns (Some config_abc) c) empty_db
             [mkCacheObject "seen" "1"] [mkCacheObject "seen" "1"]
             config_abc "/srv/builds/abc123"); reflexivity.
  - apply (configure_takes_first_result
             [ (λ c, Returns None (c ++ [mkCacheObject "seen" "1"])) ]
             [] (λ c, Returns None c) empty_db
             [mkCacheObject "seen" "1"] [] config_abc ""). reflexivity.
Defined.

(** X10.  A broadcast stage calls the base implementation, then every
    implementation of the build system once, in order, each on the cache the
    one before left: when all return, the stage returns; when one raises, the
    stage ends there with that exception, the implementations after it are
    never called, and the cache is as the failing one left it. *)
Theorem broadcast_calls_in_order (st : Stage) (hs1 hs2 : list (Hook unit))
    (h : Hook unit) (d : Db) (c1 cf : list CacheObject) (e : exception) :
  all_return hs1 (cache d) = Some c1 →
  hook_broadcast st hs1 d =
    mkRun (Return tt) (with_cache d c1)
          (EvCall st Base :: plugin_calls st 0 (length hs1)) ∧
  (h c1 = Raises e cf →
     hook_broadcast st (hs1 ++ h :: hs2) d =
       mkRun (Raise e) (with_cache d cf)
             (EvCall st Base :: plugin_calls st 0 (S (length hs1))
                ++ [EvRaise st (Plugin (length hs1)) e])).
Proof.
  intros Hall. split.
  - unfold hook_broadcast. rewrite (bind_return _ _ _ tt) by done.
    cbn [base_noop outcome final events].
    pose proof (call_impls_app st hs1 [] 0 d c1 Hall) as Hci.
    rewrite app_nil_r in Hci. rewrite Hci. cbn. by rewrite app_nil_r.
  - intros Hh. unfold hook_broadcast. rewrite (bind_return _ _ _ tt) by done.
    cbn [base_noop outcome final events].
    rewrite (call_impls_app st hs1 (h :: hs2) 0 d c1 Hall).
    cbn [call_impls Nat.add]. cbn zeta.
    rewrite (bind_raise _ _ _ e)
      by (unfold call_hook; cbn [cache with_cache]; by rewrite Hh).
    unfold call_hook; cbn [cache with_cache]. rewrite Hh.
    cbn [outcome final events app]. rewrite plugin_calls_snoc.
    by rewrite <- (assoc_L (++)).
Qed.

Lemma broadcast_calls_in_order_sample :
  hook_broadcast build
      [ (λ c, Returns tt c); (λ c, Returns tt c) ] empty_db
    = mkRun (Return tt) (with_cache empty_db [])
        (EvCall build Base :: plugin_calls build 0 2) ∧
  hook_broadcast build ((λ h, h config_abc) <$> third_of_four_fails build)
      empty_db
    = mkRun (Raise (OtherError "boom")) (with_cache empty_db [])
        (EvCall build Base :: plugin_calls build 0 3
           ++ [EvRaise build (Plugin 2) (OtherError "boom")]).
Proof.
  split.
  - apply (broadcast_calls_in_order build
             [ (λ c, Returns tt c); (λ c, Returns tt c) ] []
             (λ c, Returns tt c) empty_db [] [] TypeError). reflexivity.
  - apply (proj2 (broadcast_calls_in_order build
             [ (λ c, Returns tt c); (λ c, Returns tt c) ]
             [ (λ c, Returns tt c) ]
             (λ c, Raises (OtherError "boom") c) empty_db [] []
             (OtherError "boom") eq_refl)). reflexivity.
Defined.


End PipelineMore.

(** * Further properties of the drivers *)

Section DriversMore.

Import Sample.

Variable env : Env.
Variable args : Args.

Implicit Types (d : Db) (sha : string) (s snap : Snapshot).

Local Ltac simpl_run :=
  cbn -[SnapshotManager.get SnapshotManager.create
        SnapshotManager.adopt_into_running_state SnapshotManager.complete
        SnapshotManager.schedule_for_release is_pid_alive].

(** A conditional update based on the row just read cannot fail. *)
Lemma cas_call_just_read g sha s d :
  SnapshotManager.get sha d = Some s →
  (∀ x, ref_sha (g x) = ref_sha x) →
  (cas_call g s d).2 = Some (g s) ∧
  SnapshotManager.get sha (cas_call g s d).1 = Some (g s) ∧
  snapshot_history (cas_call g s d).1 = snapshot_history d ∧
  cache (cas_call g s d).1 = cache d.
Proof.
  intros Hget Hg. pose proof (get_ref_sha_eq _ _ _ Hget) as Hk.
  unfold SnapshotManager.get, Sql.fetchone, Sql.select in Hget.
  destruct (update_first _ _ _ g Hget Hg) as [H1 H2].
  unfold cas_call. rewrite Hk.
  destruct (Sql.update _ _ _) as [tbl rows]. cbn [fst snd] in *.
  by repeat split.
Qed.

Lemma acquire_reentrant sha act d s b :
  SnapshotManager.get sha d = Some s →
  pid s = os_getpid env →
  is_pid_alive (os_kill env) (pid s) = Return b →
  acquire env args sha act d = mkRun (Return s) d [].
Proof.
  intros Hget Hpid Hb. unfold acquire, bind, db_read, pure_call; simpl_run.
  rewrite Hget; simpl_run. rewrite Hb; simpl_run.
  rewrite bool_decide_false by (intros Hne; by apply Hne). done.
Qed.

Lemma acquire_dead_owner sha act d s :
  SnapshotManager.get sha d = Some s →
  pid s ≠ os_getpid env →
  is_pid_alive (os_kill env) (pid s) = Return false →
  acquire env args sha act d =
    mkRun (Return (SnapshotManager.adopt_set act (datetime_now env)
                     (arg_user args) (os_getpid env) s))
          (SnapshotManager.adopt_into_running_state s act (datetime_now env)
             (arg_user args) (os_getpid env) d).1
          [EvAdopt].
Proof.
  intros Hget Hpid Hb.
  destruct (cas_call_just_read
              (SnapshotManager.adopt_set act (datetime_now env) (arg_user args)
                 (os_getpid env)) sha s d Hget) as (Hres & _); [done|].
  change (cas_call _ s d) with
    (SnapshotManager.adopt_into_running_state s act (datetime_now env)
       (arg_user args) (os_getpid env) d) in Hres.
  unfold acquire, bind, db_read, db_call, pure_call; simpl_run.
  rewrite Hget; simpl_run. rewrite Hb; simpl_run.
  rewrite bool_decide_true by done. simpl_run.
  destruct (SnapshotManager.adopt_into_running_state _ _ _ _ _ _) as [d' r'].
  cbn [snd] in Hres. subst r'. done.
Qed.

Lemma acquire_probe_error sha act d s e :
  SnapshotManager.get sha d = Some s →
  is_pid_alive (os_kill env) (pid s) = Raise e →
  acquire env args sha act d = mkRun (Raise e) d [].
Proof.
  intros Hget Hb. unfold acquire, bind, db_read, pure_call; simpl_run.
  rewrite Hget; simpl_run. by rewrite Hb.
Qed.

(** X11.  How a driver treats a snapshot it finds for its ref_sha, whatever
    the state of that snapshot ([COMPLETE] included): with its own pid on the
    row it proceeds with the row as it is, calling no operation of the
    coordinator; with the pid of another process that is dead it adopts the
    row, which becomes [RUNNING] under the driver's action and pid with
    [updated_at] and [updated_by] refreshed, every other column kept. *)
Theorem found_snapshot_policy (sha : string) (act : ProcessAction) (d : Db)
    (s : Snapshot) :
  SnapshotManager.get sha d = Some s →
  (pid s = os_getpid env →
   (∃ b, is_pid_alive (os_kill env) (pid s) = Return b) →
     acquire env args sha act d = mkRun (Return s) d []) ∧
  (pid s ≠ os_getpid env →
   is_pid_alive (os_kill env) (pid s) = Return false →
     let row := mkSnapshot (ref s) (ref_sha s) act RUNNING (created_at s)
                  (created_by s) (Some (datetime_now env))
                  (Some (arg_user args)) (os_getpid env) (efd s) (etd s) in
     outcome (acquire env args sha act d) = Return row ∧
     events (acquire env args sha act d) = [EvAdopt] ∧
     SnapshotManager.get sha (final (acquire env args sha act d)) = Some row ∧
     cache (final (acquire env args sha act d)) = cache d).
Proof.
  intros Hget. split.
  - intros Hpid [b Hb]. by apply (acquire_reentrant sha act d s b).
  - intros Hpid Hb row. rewrite (acquire_dead_owner sha act d s) by done.
    cbn [outcome final events].
    destruct (cas_call_just_read
                (SnapshotManager.adopt_set act (datetime_now env)
                   (arg_user args) (os_getpid env)) sha s d Hget)
      as (_ & Hg & _ & Hc); [done|].
    by repeat split.
Qed.

(** X12.  The liveness probe is made before anything else is decided: when
    it fails with an error other than [ESRCH] and [EPERM] on the pid of a
    stored snapshot, both drivers end with that error, having changed nothing
    in the store and invoked no hook. *)
Theorem probe_error_aborts_run (d : Db) (sha : string) (s : Snapshot)
    (e : exception) :
  outcome (preamble env args d) = Return sha →
  SnapshotManager.get sha d = Some s →
  is_pid_alive (os_kill env) (pid s) = Raise e →
  build_handler env args d = mkRun (Raise e) d [] ∧
  release_handler env args d = mkRun (Raise e) d [].
Proof.
  intros Hpre%preamble_returns Hget Hb. split.
  - unfold build_handler.
    rewrite (bind_return _ _ _ sha) by by rewrite Hpre.
    rewrite Hpre; cbn [outcome final events app].
    rewrite (bind_raise _ _ _ e)
      by by rewrite (acquire_probe_error sha BUILD d s e).
    by rewrite (acquire_probe_error sha BUILD d s e).
  - unfold release_handler.
    rewrite (bind_return _ _ _ sha) by by rewrite Hpre.
    rewrite Hpre; cbn [outcome final events app].
    rewrite (bind_raise _ _ _ e)
      by by rewrite (acquire_probe_error sha RELEASE d s e).
    by rewrite (acquire_probe_error sha RELEASE d s e).
Qed.

Lemma bind_pure_call_return {A B} (a : A) (k : A → M B) d :
  bind (pure_call (Return a)) k d = k a d.
Proof. unfold bind, pure_call; cbn. by destruct (k a d). Qed.

Lemma bind_pure_call_raise {A B} (e : exception) (k : A → M B) d :
  bind (pure_call (Raise e)) k d = mkRun (Raise e) d [].
Proof. reflexivity. Qed.

(** X13.  A driver whose preamble fails ends with that failure before it
    looks a snapshot up: no row of the store is read or written and no hook
    is invoked.  The ref is resolved first, so an error of [get_ref_sha]
    (git run in the repository path) is the one the run ends with, whatever
    the later checks would find.  With the ref resolved and the repository
    path found, a repository that is not bare and a builds path that does
    not exist each end the run with [sys.exit(1)]. *)
Theorem preamble_failure_touches_nothing (d : Db) (e : exception) :
  outcome (preamble env args d) = Raise e →
  build_handler env args d = mkRun (Raise e) d [] ∧
  release_handler env args d = mkRun (Raise e) d [] ∧
  (∀ e', get_ref_sha env (arg_ref args) = Raise e' → e = e') ∧
  (∀ sha, get_ref_sha env (arg_ref args) = Return sha →
     repo_path_exists env = Return true →
     get_is_bare_repo env = Return false ∨
     (get_is_bare_repo env = Return true ∧
      builds_path_exists env = Return false) →
     e = SystemExit 1).
Proof.
  intros Ho. destruct (preamble_silent env args d) as [Hf Hev].
  assert (preamble env args d = mkRun (Raise e) d []) as Hpre.
  { destruct (preamble env args d) as [o f ev]. cbn in *. by subst. }
  split; [|split; [|split]].
  - unfold build_handler. rewrite (bind_raise _ _ _ e) by done.
    by rewrite Hpre.
  - unfold release_handler. rewrite (bind_raise _ _ _ e) by done.
    by rewrite Hpre.
  - intros e' Hsha. revert Ho. unfold preamble.
    rewrite Hsha, bind_pure_call_raise. cbn [outcome]. by intros [= <-].
  - intros sha Hsha Hrepo Hcase. revert Ho. unfold preamble.
    rewrite Hsha, bind_pure_call_return, Hrepo, bind_pure_call_return.
    cbn [negb when]. change (ret tt) with (pure_call (Return tt)).
    rewrite bind_pure_call_return.
    destruct Hcase as [Hb|[Hb Hbp]]; rewrite Hb, bind_pure_call_return;
      cbn [negb when].
    + change (sys_exit 1) with (pure_call (A:=unit) (Raise (SystemExit 1))).
      rewrite bind_pure_call_raise. cbn [outcome]. by intros [= <-].
    + change (ret tt) with (pure_call (Return tt)).
      rewrite bind_pure_call_return, Hbp, bind_pure_call_return.
      cbn [negb when].
      change (sys_exit 1) with (pure_call (A:=unit) (Raise (SystemExit 1))).
      rewrite bind_pure_call_raise. cbn [outcome]. by intros [= <-].
Qed.

Lemma bind_db_call {A B} ev (f : Db → Db * A) (k : A → M B) d :
  bind (db_call ev f) k d =
    mkRun (outcome (k (f d).2 (f d).1)) (final (k (f d).2 (f d).1))
          (ev :: events (k (f d).2 (f d).1)).
Proof. unfold bind, db_call. by destruct (f d). Qed.

(** The snapshot a driver owns is still the row of the store once the
    pipeline is through. *)
Lemma owned_after_pipeline sha act d snap d1 evs (pipeline : M unit) :
  acquire env args sha act d = mkRun (Return snap) d1 evs →
  hook_only pipeline →
  SnapshotManager.get sha (final (pipeline d1)) = Some snap ∧
  snapshot_history (final (pipeline d1)) = snapshot_history d.
Proof.
  intros Hown Hpipe.
  destruct (acquire_owned _ _ _ _ _ _ _ _ Hown) as (Hget & Hh & _).
  destruct (Hpipe d1) as (Hs & Hh' & _).
  split; [by rewrite (get_same_table _ _ _ Hs)|congruence].
Qed.

(** X14.  A build run that owns its snapshot and whose hooks all return ends
    by a transition that cannot be refused: without [--schedule-release] the
    row becomes [COMPLETE] and the run ends with [sys.exit(0)]; with it the
    row becomes a [SCHEDULED] [RELEASE] and the handler returns.  Either way
    the pid on the row stays that of the build, [efd] is the time of the run,
    [snapshot_history] is as before the run and the cache is as the hooks
    left it. *)
Theorem successful_build_run (d d1 d2 : Db) (sha : string) (snap : Snapshot)
    (evs evs2 : list Event) :
  outcome (preamble env args d) = Return sha →
  acquire env args sha BUILD d = mkRun (Return snap) d1 evs →
  action snap = BUILD →
  build_pipeline env d1 = mkRun (Return tt) d2 evs2 →
  let r := build_handler env args d in
  let now := datetime_now env in
  let user := arg_user args in
  cache (final r) = cache d2 ∧
  snapshot_history (final r) = snapshot_history d ∧
  (arg_schedule_release args = false →
     outcome r = Raise (SystemExit 0) ∧
     events r = evs ++ evs2 ++ [EvComplete] ∧
     SnapshotManager.get sha (final r)
       = Some (mkSnapshot (ref snap) (ref_sha snap) BUILD COMPLETE
                 (created_at snap) (created_by snap) (Some now) (Some user)
                 (pid snap) now (etd snap))) ∧
  (arg_schedule_release args = true →
     outcome r = Return tt ∧
     events r = evs ++ evs2 ++ [EvSchedule] ∧
     SnapshotManager.get sha (final r)
       = Some (mkSnapshot (ref snap) (ref_sha snap) RELEASE SCHEDULED
                 (created_at snap) (created_by snap) (Some now) (Some user)
                 (pid snap) now (etd snap))).
Proof.
  intros Hpre%preamble_returns Hown Hact Hpipe r now user.
  destruct (owned_after_pipeline sha BUILD d snap d1 evs (build_pipeline env)
              Hown (hook_only_build_pipeline env)) as [Hget Hhist].
  rewrite Hpipe in Hget, Hhist. cbn [final] in Hget, Hhist.
  destruct (cas_call_just_read (SnapshotManager.complete_set now user)
              sha snap d2 Hget) as (Hc1 & Hc2 & Hc3 & Hc4); [done|].
  destruct (cas_call_just_read (SnapshotManager.schedule_set now user)
              sha snap d2 Hget) as (Hs1 & Hs2 & Hs3 & Hs4); [done|].
  assert (r =
    if negb (arg_schedule_release args)
    then mkRun (Raise (SystemExit 0))
           (cas_call (SnapshotManager.complete_set now user) snap d2).1
           (evs ++ evs2 ++ [EvComplete])
    else mkRun (Return tt)
           (cas_call (SnapshotManager.schedule_set now user) snap d2).1
           (evs ++ evs2 ++ [EvSchedule])) as Hrun.
  { subst r. unfold build_handler.
    rewrite (bind_return _ _ _ sha) by by rewrite Hpre.
    rewrite Hpre; cbn [outcome final events app].
    rewrite (bind_return _ _ _ snap) by by rewrite Hown.
    rewrite Hown; cbn [outcome final events].
    rewrite bool_decide_false by (intros Hne; by apply Hne). cbn [when].
    rewrite (bind_return _ _ _ tt) by done.
    cbn [outcome final events ret app].
    rewrite (bind_return _ _ _ tt) by by rewrite Hpipe.
    rewrite Hpipe; cbn [outcome final events].
    destruct (arg_schedule_release args); cbn [negb];
      rewrite bind_db_call; cbn [sys_exit raise ret outcome final events];
      reflexivity. }
  clearbody r. subst r.
  destruct (arg_schedule_release args); cbn [negb outcome final events].
  - split; [done|]. split; [congruence|]. split; [done|].
    intros _. split; [done|]. split; [done|]. exact Hs2.
  - split; [done|]. split; [congruence|]. split; [|done].
    intros _. split; [done|]. split; [done|]. rewrite Hc2.
    unfold SnapshotManager.complete_set. by rewrite Hact.
Qed.

(** The events of [configure] name no other stage. *)
Lemma first_result_events hs :
  ∀ i d, Forall (λ ev, ∃ w, ev = EvCall configure w ∨ ∃ e, ev = EvRaise configure w e)
           (events (first_result i hs d)).
Proof.
  induction hs as [|h hs IH]; intros i d; cbn [first_result]; [constructor|].
  unfold bind, call_hook. destruct (h (cache d)) as [[c|] c'|e c']; cbn.
  - repeat constructor. exists (Plugin i). by left.
  - constructor; [exists (Plugin i); by left|]. apply IH.
  - repeat constructor; exists (Plugin i); [by left|right; by exists e].
Qed.

Lemma hook_configure_events hs d :
  Forall (λ ev, ∃ w, ev = EvCall configure w ∨ ∃ e, ev = EvRaise configure w e)
    (events (hook_configure hs d)).
Proof.
  unfold hook_configure. pose proof (first_result_events hs 0%nat d) as Hfr.
  destruct (outcome (first_result 0 hs d)) as [res|e].
  - destruct (validate_config res) as [c|e]; cbn [events].
    + constructor; [exists Base; by left|done].
    + constructor; [exists Base; by left|]. apply Forall_app. split; [done|].
      repeat constructor. exists Base. right. by exists e.
  - cbn [events]. constructor; [exists Base; by left|done].
Qed.

(** X15.  A release run that owns its snapshot: when its hooks all return,
    the final [complete] cannot be refused, the row becomes [COMPLETE] and
    the handler returns.  When the build path that [configure] named does not
    exist, the run ends with [sys.exit(1)] right after [configure]: no
    release stage is invoked and the row stays what ownership made it. *)
Theorem release_run_outcomes (d d1 : Db) (sha : string) (snap : Snapshot)
    (evs : list Event) :
  outcome (preamble env args d) = Return sha →
  acquire env args sha RELEASE d = mkRun (Return snap) d1 evs →
  action snap = RELEASE →
  let r := release_handler env args d in
  (∀ d2 evs2, release_pipeline env d1 = mkRun (Return tt) d2 evs2 →
     outcome r = Return tt ∧
     events r = evs ++ evs2 ++ [EvComplete] ∧
     cache (final r) = cache d2 ∧
     SnapshotManager.get sha (final r)
       = Some (mkSnapshot (ref snap) (ref_sha snap) RELEASE COMPLETE
                 (created_at snap) (created_by snap)
                 (Some (datetime_now env)) (Some (arg_user args)) (pid snap)
                 (datetime_now env) (etd snap))) ∧
  (∀ config d2 evs2 p,
     hook_configure (configure_impls env) d1 = mkRun (Return config) d2 evs2 →
     config !! "build_path" = Some (PyPath p) →
     path_exists env p = Return false →
     r = mkRun (Raise (SystemExit 1)) d2 (evs ++ evs2) ∧
     exit_status (outcome r) = 1 ∧
     SnapshotManager.get sha (final r) = Some snap ∧
     (∀ st w, EvCall st w ∈ events r → st = configure)).
Proof.
  intros Hpre%preamble_returns Hown Hact r.
  assert (∀ rest : Snapshot → M unit,
    bind (preamble env args) (λ sha,
      bind (acquire env args sha RELEASE) (λ snap,
        bind (when (bool_decide (action snap ≠ RELEASE)) (sys_exit 0))
             (λ _, rest snap))) d
    = mkRun (outcome (rest snap d1)) (final (rest snap d1))
            (evs ++ events (rest snap d1)))
    as Hhead.
  { intros rest.
    rewrite (bind_return _ _ _ sha) by by rewrite Hpre.
    rewrite Hpre; cbn [outcome final events app].
    rewrite (bind_return _ _ _ snap) by by rewrite Hown.
    rewrite Hown; cbn [outcome final events].
    rewrite bool_decide_false by (intros Hne; by apply Hne). cbn [when].
    rewrite (bind_return _ _ _ tt) by done.
    cbn [outcome final events ret app]. done. }
  split.
  - intros d2 evs2 Hpipe.
    destruct (owned_after_pipeline sha RELEASE d snap d1 evs
                (release_pipeline env) Hown (hook_only_release_pipeline env))
      as [Hget Hhist].
    rewrite Hpipe in Hget, Hhist. cbn [final] in Hget, Hhist.
    destruct (cas_call_just_read
                (SnapshotManager.complete_set (datetime_now env) (arg_user args))
                sha snap d2 Hget) as (Hc1 & Hc2 & Hc3 & Hc4); [done|].
    subst r. unfold release_handler.
    rewrite Hhead.
    rewrite (bind_return (release_pipeline env) _ d1 tt) by by rewrite Hpipe.
    rewrite Hpipe; cbn [outcome final events].
    rewrite bind_db_call; cbn [ret outcome final events].
    split; [done|]. split; [done|]. split; [exact Hc4|].
    etransitivity; [exact Hc2|].
    unfold SnapshotManager.complete_set. by rewrite Hact.
  - intros config d2 evs2 p Hconf Hp Hmissing.
    assert (release_pipeline env d1 = mkRun (Raise (SystemExit 1)) d2 evs2)
      as Hpipe.
    { unfold release_pipeline.
      rewrite (bind_return _ _ _ config) by by rewrite Hconf.
      rewrite Hconf; cbn [outcome final events].
      unfold config_getitem. rewrite Hp.
      rewrite bind_pure_call_return. cbn [py_path_exists].
      rewrite Hmissing, bind_pure_call_return. cbn [negb when].
      rewrite (bind_raise _ _ _ (SystemExit 1)) by done.
      cbn. by rewrite app_nil_r. }
    assert (r = mkRun (Raise (SystemExit 1)) d2 (evs ++ evs2)) as Hrun.
    { subst r. unfold release_handler.
      rewrite Hhead.
      rewrite (bind_raise (release_pipeline env) _ d1 (SystemExit 1))
        by by rewrite Hpipe.
      by rewrite Hpipe. }
    rewrite Hrun. cbn [outcome final events]. split; [done|]. split; [done|].
    split.
    + destruct (acquire_owned _ _ _ _ _ _ _ _ Hown) as (Hget & _).
      destruct (hook_only_hook_configure (configure_impls env) d1)
        as (Hs & _). rewrite Hconf in Hs. cbn [final] in Hs.
      by rewrite (get_same_table _ _ _ Hs).
    + intros st w [Hin|Hin]%elem_of_app.
      * pose proof (acquire_events env args sha RELEASE d) as Hev.
        rewrite Hown in Hev. cbn [events] in Hev.
        rewrite Forall_forall in Hev. by destruct (Hev _ Hin).
      * pose proof (hook_configure_events (configure_impls env) d1) as Hev.
        rewrite Hconf in Hev. cbn [events] in Hev.
        rewrite Forall_forall in Hev.
        destruct (Hev _ Hin) as [w' [Heq|[e Heq]]]; congruence.
Qed.

Lemma get_is_Some_keys k d :
  is_Some (SnapshotManager.get k d) ↔ k ∈ ref_sha <$> snapshot d.
Proof.
  unfold SnapshotManager.get, Sql.fetchone, Sql.select. split.
  - intros [s Hs%head_Some_elem_of]. apply list_elem_of_filter in Hs as [Hk Hin].
    subst k. by apply list_elem_of_fmap_2.
  - intros (s & -> & Hin)%list_elem_of_fmap.
    destruct (filter (λ r, ref_sha r = ref_sha s) (snapshot d)) eqn:Hf;
      [|by eexists].
    assert (s ∈ filter (λ r, ref_sha r = ref_sha s) (snapshot d)) as Hs
      by by apply list_elem_of_filter.
    rewrite Hf in Hs. by apply elem_of_nil in Hs.
Qed.

Lemma cas_call_keys g s d :
  (∀ x, ref_sha (g x) = ref_sha x) →
  ref_sha <$> snapshot (cas_call g s d).1 = ref_sha <$> snapshot d.
Proof.
  intros Hg. unfold cas_call, Sql.update; cbn [fst snapshot].
  rewrite <- (list_fmap_compose _ ref_sha).
  apply list_fmap_ext. intros i x _. cbn. by destruct (decide _).
Qed.

Lemma store_step_refl sha d : store_step sha d d.
Proof. by repeat split. Qed.

Lemma store_step_trans sha d1 d2 d3 :
  store_step sha d1 d2 → store_step sha d2 d3 → store_step sha d1 d3.
Proof.
  intros (Hh & Hpk & Hk & Ho) (Hh' & Hpk' & Hk' & Ho').
  split; [congruence|]. split; [auto|]. split; [auto|].
  intros k Hne. by rewrite Ho', Ho.
Qed.

Lemma store_step_tables sha d d' :
  snapshot d' = snapshot d → snapshot_history d' = snapshot_history d →
  store_step sha d d'.
Proof.
  intros Hs Hh. split; [done|]. split; [by rewrite Hs|].
  split; intros k; rewrite (get_same_table _ _ _ Hs); done.
Qed.

Lemma store_step_cas g s d :
  (∀ x, ref_sha (g x) = ref_sha x) →
  store_step (ref_sha s) d (cas_call g s d).1.
Proof.
  intros Hg. split; [apply cas_call_history|].
  split; [by apply cas_call_pk_unique|]. split.
  - intros k. rewrite !get_is_Some_keys. by rewrite cas_call_keys.
  - intros k Hne. by apply cas_call_other_key.
Qed.

Lemma store_step_create rf k a st now user p d :
  store_step k d (SnapshotManager.create rf k a st now user p d).1.
Proof.
  split; [unfold SnapshotManager.create; by destruct (Sql.select _ _)|].
  split; [apply create_pk_unique|]. split.
  - intros k'. rewrite !get_is_Some_keys. unfold SnapshotManager.create.
    destruct (Sql.select _ _); [|done]. cbn [fst snapshot].
    rewrite fmap_app. intros Hin. apply elem_of_app. by left.
  - intros k' Hne.
    by apply create_other_key.
Qed.

Lemma acquire_store_step sha act d :
  store_step sha d (final (acquire env args sha act d)).
Proof.
  unfold acquire, bind, db_read, db_call, pure_call; simpl_run.
  destruct (SnapshotManager.get sha d) as [s|] eqn:Hget; simpl_run.
  - pose proof (get_ref_sha_eq _ _ _ Hget) as Hk.
    destruct (is_pid_alive _ _) as [alive|e]; simpl_run;
      [|apply store_step_refl].
    destruct (bool_decide _); simpl_run; [|apply store_step_refl].
    destruct alive; simpl_run; [apply store_step_refl|].
    pose proof (store_step_cas
      (SnapshotManager.adopt_set act (datetime_now env) (arg_user args)
         (os_getpid env)) s d) as Hstep.
    rewrite Hk in Hstep. specialize (Hstep (λ _, eq_refl)).
    change (cas_call _ s d) with
      (SnapshotManager.adopt_into_running_state s act (datetime_now env)
         (arg_user args) (os_getpid env) d) in Hstep.
    by destruct (SnapshotManager.adopt_into_running_state _ _ _ _ _ _)
      as [d' [s'|]].
  - pose proof (store_step_create (arg_ref args) sha BUILD RUNNING
      (datetime_now env) (arg_user args) (os_getpid env) d) as Hstep.
    rewrite create_absent in Hstep |- * by done. simpl_run.
    destruct (is_pid_alive _ _) as [alive|e]; simpl_run; [|exact Hstep].
    rewrite bool_decide_false by (intros Hne; by apply Hne). exact Hstep.
Qed.

(** One run of the shape of both drivers moves the store by [store_step]. *)
Lemma run_store_step act (pipeline : M unit) (finish : Snapshot → M unit) d :
  hook_only pipeline →
  (∀ snap d', store_step (ref_sha snap) d' (final (finish snap d'))) →
  let run :=
    bind (preamble env args) (λ sha,
    bind (acquire env args sha act) (λ snap,
    bind (when (bool_decide (action snap ≠ act)) (sys_exit 0)) (λ _,
    bind pipeline (λ _, finish snap)))) in
  match outcome (preamble env args d) with
  | Return sha => store_step sha d (final (run d))
  | Raise _ => final (run d) = d
  end.
Proof.
  intros Hpipe Hfin run. subst run.
  destruct (preamble env args d) as [[sha|e0] d0 ev0] eqn:Hpre;
    pose proof (preamble_silent env args d) as [Hd0 Hev0];
    rewrite Hpre in Hd0, Hev0; cbn in Hd0, Hev0; subst d0 ev0;
    cbn [outcome].
  2:{ rewrite (bind_raise _ _ _ e0) by by rewrite Hpre. by rewrite Hpre. }
  rewrite (bind_return _ _ _ sha) by by rewrite Hpre.
  rewrite Hpre; cbn [outcome final events app].
  pose proof (acquire_store_step sha act d) as Hacq.
  destruct (acquire env args sha act d) as [[snap|e1] d1 ev1] eqn:Hown;
    cbn [final] in Hacq.
  2:{ rewrite (bind_raise _ _ _ e1) by by rewrite Hown. by rewrite Hown. }
  rewrite (bind_return _ _ _ snap) by by rewrite Hown.
  rewrite Hown; cbn [outcome final events].
  destruct (acquire_owned _ _ _ _ _ _ _ _ Hown) as (Hget & _).
  pose proof (get_ref_sha_eq _ _ _ Hget) as Hk.
  destruct (bool_decide (action snap ≠ act)); cbn [when].
  { rewrite (bind_raise _ _ _ (SystemExit 0)) by done. exact Hacq. }
  rewrite (bind_return _ _ _ tt) by done. cbn [outcome final events ret app].
  destruct (Hpipe d1) as (Hsnap & Hhist & _).
  pose proof (store_step_tables sha d1 _ Hsnap Hhist) as Hp.
  destruct (outcome (pipeline d1)) as [[]|e2] eqn:Hout.
  - rewrite (bind_return _ _ _ tt) by done. cbn [final].
    eapply store_step_trans; [exact Hacq|].
    eapply store_step_trans; [exact Hp|]. rewrite <- Hk. apply Hfin.
  - rewrite (bind_raise _ _ _ e2) by done. cbn [final].
    eapply store_step_trans; [exact Hacq|exact Hp].
Qed.

(** X16.  Whatever its outcome, a run of either driver leaves
    [snapshot_history] as it was, keeps the primary key of [snapshot],
    deletes no snapshot, and changes the snapshot of no ref_sha other than
    the one its ref resolved to. *)
Theorem runs_keep_the_store_sound (d : Db) :
  let sound (r : Run unit) :=
    snapshot_history (final r) = snapshot_history d ∧
    (pk_unique (snapshot d) → pk_unique (snapshot (final r))) ∧
    (∀ k, is_Some (SnapshotManager.get k d) →
          is_Some (SnapshotManager.get k (final r))) ∧
    (∀ k, outcome (preamble env args d) ≠ Return k →
          SnapshotManager.get k (final r) = SnapshotManager.get k d) in
  sound (build_handler env args d) ∧ sound (release_handler env args d).
Proof.
  assert (∀ r : Run unit,
    match outcome (preamble env args d) with
    | Return sha => store_step sha d (final r)
    | Raise _ => final r = d
    end →
    snapshot_history (final r) = snapshot_history d ∧
    (pk_unique (snapshot d) → pk_unique (snapshot (final r))) ∧
    (∀ k, is_Some (SnapshotManager.get k d) →
          is_Some (SnapshotManager.get k (final r))) ∧
    (∀ k, outcome (preamble env args d) ≠ Return k →
          SnapshotManager.get k (final r) = SnapshotManager.get k d)) as Hsound.
  { intros r. destruct (outcome (preamble env args d)) as [sha|e].
    - intros (Hh & Hpk & Hk & Ho). repeat split; [done..|].
      intros k Hne. apply Ho. congruence.
    - intros ->. by repeat split. }
  cbn zeta. split; apply Hsound.
  - apply (run_store_step BUILD (build_pipeline env)
      (λ snap,
         if negb (arg_schedule_release args)
         then bind (db_call EvComplete
                      (SnapshotManager.complete snap (datetime_now env)
                         (arg_user args)))
                   (λ _, sys_exit 0)
         else bind (db_call EvSchedule
                      (SnapshotManager.schedule_for_release snap
                         (datetime_now env) (arg_user args)))
                   (λ _, ret tt))); [apply hook_only_build_pipeline|].
    intros snap d'. destruct (negb (arg_schedule_release args));
      rewrite bind_db_call; cbn [sys_exit raise ret final].
    + apply (store_step_cas (SnapshotManager.complete_set (datetime_now env)
                               (arg_user args))). done.
    + apply (store_step_cas (SnapshotManager.schedule_set (datetime_now env)
                               (arg_user args))). done.
  - apply (run_store_step RELEASE (release_pipeline env)
      (λ snap,
         bind (db_call EvComplete
                 (SnapshotManager.complete snap (datetime_now env)
                    (arg_user args)))
              (λ _, ret tt))); [apply hook_only_release_pipeline|].
    intros snap d'. rewrite bind_db_call; cbn [ret final].
    apply (store_step_cas (SnapshotManager.complete_set (datetime_now env)
                             (arg_user args))). done.
Qed.

End DriversMore.

Section DriverSamples.

Import SnapshotManager Sample.

Lemma found_snapshot_policy_sample :
  acquire (env_of 100 process_table) args_main "abc123" BUILD db_complete
    = mkRun (Return snap_complete) db_complete [] ∧
  outcome (acquire (env_of 200 process_table_100_dead) args_main "abc123"
             BUILD db_complete)
    = Return (mkSnapshot "main" "abc123" BUILD RUNNING 1000 "alice"
                (Some 5000) (Some "bob") 200 2000 None).
Proof.
  split.
  - apply (found_snapshot_policy (env_of 100 process_table) args_main "abc123"
             BUILD db_complete snap_complete eq_refl);
      [reflexivity|by eexists].
  - apply (proj2 (found_snapshot_policy (env_of 200 process_table_100_dead)
                    args_main "abc123" BUILD db_complete snap_complete
                    eq_refl)); [discriminate|reflexivity].
Defined.

Lemma probe_error_aborts_run_sample :
  build_handler (env_of 200 process_table) args_main db_stray
    = mkRun (Raise (OSError 22)) db_stray [] ∧
  release_handler (env_of 200 process_table) args_main db_stray
    = mkRun (Raise (OSError 22)) db_stray [].
Proof.
  apply (probe_error_aborts_run (env_of 200 process_table) args_main db_stray
           "abc123"
           (mkSnapshot "main" "abc123" BUILD RUNNING 1000 "alice" None None
              103 1000 None)); reflexivity.
Defined.

Lemma preamble_failure_touches_nothing_sample :
  build_handler env_no_builds_path args_main db_running
    = mkRun (Raise (SystemExit 1)) db_running [] ∧
  release_handler env_no_builds_path args_main db_running
    = mkRun (Raise (SystemExit 1)) db_running [] ∧
  build_handler env_no_repository args_main db_running
    = mkRun (Raise (BuildError "Failed to get ref sha")) db_running [].
Proof.
  destruct (preamble_failure_touches_nothing env_no_builds_path args_main
              db_running (SystemExit 1) eq_refl) as (Hb & Hr & _).
  destruct (preamble_failure_touches_nothing env_no_repository args_main
              db_running (BuildError "Failed to get ref sha") eq_refl)
    as (Hb' & _).
  by split; [|split].
Defined.

Lemma successful_build_run_sample :
  (outcome (build_handler (env_with 100 process_table true) args_main empty_db)
     = Raise (SystemExit 0) ∧
   get "abc123"
       (final (build_handler (env_with 100 process_table true) args_main
                 empty_db))
     = Some (mkSnapshot "main" "abc123" BUILD COMPLETE 5000 "bob" (Some 5000)
               (Some "bob") 100 5000 None)) ∧
  (outcome (build_handler (env_with 100 process_table true) args_chain empty_db)
     = Return tt ∧
   get "abc123"
       (final (build_handler (env_with 100 process_table true) args_chain
                 empty_db))
     = Some (mkSnapshot "main" "abc123" RELEASE SCHEDULED 5000 "bob"
               (Some 5000) (Some "bob") 100 5000 None)).
Proof.
  split.
  - destruct (successful_build_run (env_with 100 process_table true) args_main
                empty_db
                (mkDb [mkSnapshot "main" "abc123" BUILD RUNNING 5000 "bob"
                         None None 100 5000 None] [] [])
                (mkDb [mkSnapshot "main" "abc123" BUILD RUNNING 5000 "bob"
                         None None 100 5000 None] []
                      [mkCacheObject "tailwind" "v1"])
                "abc123"
                (mkSnapshot "main" "abc123" BUILD RUNNING 5000 "bob" None None
                   100 5000 None)
                [EvCreate]
                [EvCall configure Base; EvCall configure (Plugin 0);
                 EvCall pre_build Base; EvCall build Base;
                 EvCall build (Plugin 0); EvCall post_build Base]
                eq_refl eq_refl eq_refl eq_refl) as (_ & _ & Hdone & _).
    destruct (Hdone eq_refl) as (Ho & _ & Hg). by split.
  - destruct (successful_build_run (env_with 100 process_table true) args_chain
                empty_db
                (mkDb [mkSnapshot "main" "abc123" BUILD RUNNING 5000 "bob"
                         None None 100 5000 None] [] [])
                (mkDb [mkSnapshot "main" "abc123" BUILD RUNNING 5000 "bob"
                         None None 100 5000 None] []
                      [mkCacheObject "tailwind" "v1"])
                "abc123"
                (mkSnapshot "main" "abc123" BUILD RUNNING 5000 "bob" None None
                   100 5000 None)
                [EvCreate]
                [EvCall configure Base; EvCall configure (Plugin 0);
                 EvCall pre_build Base; EvCall build Base;
                 EvCall build (Plugin 0); EvCall post_build Base]
                eq_refl eq_refl eq_refl eq_refl) as (_ & _ & _ & Hsched).
    destruct (Hsched eq_refl) as (Ho & _ & Hg). by split.
Defined.

Lemma release_run_outcomes_sample :
  (outcome (release_handler (env_with 200 process_table_100_dead true)
              args_main db_scheduled) = Return tt ∧
   get "abc123"
       (final (release_handler (env_with 200 process_table_100_dead true)
                 args_main db_scheduled))
     = Some (mkSnapshot "main" "abc123" RELEASE COMPLETE 1000 "alice"
               (Some 5000) (Some "bob") 200 5000 None)) ∧
  (exit_status
     (outcome (release_handler (env_with 200 process_table_100_dead false)
                 args_main db_scheduled)) = 1 ∧
   get "abc123"
       (final (release_handler (env_with 200 process_table_100_dead false)
                 args_main db_scheduled))
     = Some (mkSnapshot "main" "abc123" RELEASE RUNNING 1000 "alice"
               (Some 5000) (Some "bob") 200 2000 None)).
Proof.
  split.
  - destruct (release_run_outcomes (env_with 200 process_table_100_dead true)
                args_main db_scheduled
                (mkDb [mkSnapshot "main" "abc123" RELEASE RUNNING 1000 "alice"
                         (Some 5000) (Some "bob") 200 2000 None] [] [])
                "abc123"
                (mkSnapshot "main" "abc123" RELEASE RUNNING 1000 "alice"
                   (Some 5000) (Some "bob") 200 2000 None)
                [EvAdopt] eq_refl eq_refl eq_refl) as (Hok & _).
    destruct (Hok (mkDb [mkSnapshot "main" "abc123" RELEASE RUNNING 1000
                           "alice" (Some 5000) (Some "bob") 200 2000 None]
                        [] [])
                  [EvCall configure Base; EvCall configure (Plugin 0);
                   EvCall pre_release Base; EvCall release Base;
                   EvCall post_release Base] eq_refl) as (Ho & _ & _ & Hg).
    by split.
  - destruct (release_run_outcomes (env_with 200 process_table_100_dead false)
                args_main db_scheduled
                (mkDb [mkSnapshot "main" "abc123" RELEASE RUNNING 1000 "alice"
                         (Some 5000) (Some "bob") 200 2000 None] [] [])
                "abc123"
                (mkSnapshot "main" "abc123" RELEASE RUNNING 1000 "alice"
                   (Some 5000) (Some "bob") 200 2000 None)
                [EvAdopt] eq_refl eq_refl eq_refl) as (_ & Hmiss).
    destruct (Hmiss config_abc
                (mkDb [mkSnapshot "main" "abc123" RELEASE RUNNING 1000
                         "alice" (Some 5000) (Some "bob") 200 2000 None]
                      [] [])
                [EvCall configure Base; EvCall configure (Plugin 0)]
                "/srv/builds/abc123" eq_refl eq_refl eq_refl)
      as (_ & Hs & Hg & _).
    by split.
Defined.

Lemma runs_keep_the_store_sound_sample :
  pk_unique
    (snapshot (final (build_handler (env_of 200 process_table_100_dead)
                        args_main db_running))) ∧
  get "def456"
      (final (build_handler (env_of 200 process_table_100_dead) args_main
                db_running))
    = get "def456" db_running.
Proof.
  destruct (runs_keep_the_store_sound (env_of 200 process_table_100_dead)
              args_main db_running) as ((_ & Hpk & _ & Hother) & _).
  split.
  - apply Hpk. apply NoDup_singleton.
  - apply Hother. discriminate.
Defined.

End DriverSamples.

(** * Stale builds *)

Section StaleBuilds.

Import Sample.

Implicit Types (l keyed : list (Q * string)) (paths : list string).

Lemma stat_all_spec stat paths keyed :
  stat_all stat paths = Return keyed →
  snd <$> keyed = paths ∧ Forall (λ x, stat (snd x) = Return (fst x)) keyed.
Proof.
  revert keyed. induction paths as [|p ps IH]; intros keyed; cbn.
  - intros [= <-]. by split.
  - destruct (stat p) as [t|e] eqn:Hp; [|done].
    destruct (stat_all stat ps) as [k|e]; [|done]. intros [= <-].
    destruct (IH k eq_refl) as [Hs Hall]. split; [by rewrite fmap_cons, Hs|].
    by constructor.
Qed.

Lemma insert_keyed_perm r x l : insert_keyed r x l ≡ₚ x :: l.
Proof.
  induction l as [|y l IH]; [done|]. cbn [insert_keyed].
  destruct (if r then _ else _); [|done].
  rewrite IH. apply Permutation_swap.
Qed.

Lemma sort_keyed_perm r l : sort_keyed r l ≡ₚ l.
Proof.
  induction l as [|x l IH]; [done|]. cbn. by rewrite insert_keyed_perm, IH.
Qed.

Lemma insert_keyed_descending x l :
  descending l → descending (insert_keyed true x l).
Proof.
  induction l as [|y l IH]; [by cbn|]. intros [Hy Hl]. cbn [insert_keyed].
  unfold float_lt. destruct (Qlt_le_dec x.1 y.1) as [Hlt|Hle]; cbn.
  - split; [|by apply IH].
    rewrite (insert_keyed_perm true x l). constructor; [|done].
    by apply Qlt_le_weak.
  - split; [|done]. constructor; [done|].
    eapply Forall_impl; [exact Hy|]. intros z Hz. cbn in Hz.
    by apply (Qle_trans _ y.1).
Qed.

Lemma sort_keyed_descending l : descending (sort_keyed true l).
Proof.
  induction l as [|x l IH]; [done|]. cbn. by apply insert_keyed_descending.
Qed.

Lemma elem_of_drop_in {A} (x : A) n (l : list A) : x ∈ drop n l → x ∈ l.
Proof. intros Hin. exact (elem_of_suffix _ _ _ Hin (suffix_drop l n)). Qed.

(** In a descending list, whatever comes after a cut is no newer than
    whatever comes before it. *)
Lemma descending_cut l n x y :
  descending l → x ∈ take n l → y ∈ drop n l → (fst y <= fst x)%Q.
Proof.
  revert n. induction l as [|z l IH]; intros n Hd Hx Hy.
  - rewrite take_nil in Hx. by apply elem_of_nil in Hx.
  - destruct Hd as [Hz Hl]. destruct n as [|n]; cbn in *.
    + by apply elem_of_nil in Hx.
    + apply elem_of_cons in Hx as [->|Hx]; [|by apply (IH n)].
      rewrite Forall_forall in Hz. apply Hz.
      by eapply elem_of_drop_in.
Qed.

Lemma remove_loop_removed rm paths body rem :
  ∃ done_,
    (remove_loop rm paths body rem).2 = rem ++ done_ ∧
    done_ `prefix_of` paths.
Proof.
  revert body rem. induction paths as [|p ps IH]; intros body rem; cbn.
  - exists []. by rewrite app_nil_r.
  - destruct (rm p) as [e|]; cbn.
    + exists []. split; [by rewrite app_nil_r|apply prefix_nil].
    + destruct (IH (body +:+ "+ " +:+ p) (rem ++ [p])) as (dn & Hdn & Hpre).
      exists (p :: dn). split; [by rewrite Hdn, <- (assoc_L (++))|].
      by apply prefix_cons.
Qed.

Lemma string_app_length (a b : string) :
  String.length (a +:+ b) = (String.length a + String.length b)%nat.
Proof.
  induction a as [|c a IH]; [done|].
  change (S (String.length (a +:+ b))
          = S (String.length a + String.length b)).
  by rewrite IH.
Qed.

(** When every [rmtree] returns, the loop removes all it is given, and its
    log body is empty only if it was given nothing. *)
Lemma remove_loop_all rm paths body rem :
  Forall (λ p, rm p = None) paths →
  ∃ b, remove_loop rm paths body rem = (Return b, rem ++ paths) ∧
       (String.length body + 2 * length paths ≤ String.length b)%nat.
Proof.
  intros Hall. revert body rem.
  induction Hall as [|p ps Hp _ IH]; intros body rem; cbn.
  - exists body. split; [by rewrite app_nil_r|lia].
  - rewrite Hp.
    destruct (IH (body +:+ "+ " +:+ p) (rem ++ [p])) as (b & -> & Hlen).
    exists b. split; [by rewrite <- (assoc_L (++))|].
    rewrite !string_app_length in Hlen. cbn in Hlen. lia.
Qed.

Lemma slice_from_drop {A} (k : Z) (l : list A) :
  ∃ n, slice_from k l = drop n l ∧
    (0 ≤ k → n = Z.to_nat k) ∧
    (k < 0 → n = (length l - Z.to_nat (- k))%nat).
Proof.
  unfold slice_from. destruct (decide (0 ≤ k)).
  - exists (Z.to_nat k). split; [done|]. split; [done|lia].
  - exists (length l - Z.to_nat (- k))%nat. split; [done|]. split; [lia|done].
Qed.

(** X17.  [remove_stale_builds] removes only entries of the builds
    directory, and never one of the excluded paths, whatever [keep_builds]
    is and whether or not a [stat] or an [rmtree] fails on the way. *)
Theorem stale_builds_spare_excluded (fs : BuildsDir)
    (exclude_paths : list string) (keep_builds : Z) (p : string) :
  p ∈ removed (remove_stale_builds fs exclude_paths keep_builds) →
  p ∈ glob fs ∧ p ∉ exclude_paths.
Proof.
  unfold remove_stale_builds, sort_paths_by_last_status_change.
  destruct (stat_all _ _) as [keyed|e] eqn:Hstat;
    [|by intros ?%elem_of_nil].
  destruct (stat_all_spec _ _ _ Hstat) as [Hpaths _].
  destruct (remove_loop_removed (rmtree fs)
              (slice_from keep_builds (snd <$> sort_keyed true keyed)) "" [])
    as (dn & Hdn & Hpre).
  destruct (remove_loop _ _ _ _) as [[body|e] rem]; cbn [snd removed] in *;
    subst rem; cbn [app]; intros Hin.
  all: assert (p ∈ snd <$> sort_keyed true keyed) as Hs by
    (destruct (slice_from_drop keep_builds (snd <$> sort_keyed true keyed))
       as (n & Hn & _); rewrite Hn in Hpre;
     eapply elem_of_drop_in; destruct Hpre as [k Hk]; rewrite Hk;
     apply elem_of_app; by left).
  all: rewrite (sort_keyed_perm true keyed), Hpaths in Hs.
  all: by apply list_elem_of_filter in Hs as [? ?].
Qed.

Lemma stale_builds_spare_excluded_sample :
  "b1" ∈ glob builds_dir ∧ "b1" ∉ ["latest"; "notes"].
Proof.
  apply (stale_builds_spare_excluded builds_dir ["latest"; "notes"] 2 "b1").
  vm_compute. apply list_elem_of_here.
Defined.

Lemma stat_all_keys stat (ctime : string → Q) paths :
  Forall (λ p, stat p = Return (ctime p)) paths →
  stat_all stat paths = Return ((λ p, (ctime p, p)) <$> paths).
Proof.
  induction 1 as [|p ps Hp _ IH]; cbn; [done|]. by rewrite Hp, IH.
Qed.

(** Insertion moves a path past newer ones only, so the paths of one time
    stay in their order. *)
Lemma insert_keyed_stable (t : Q) x l :
  filter (λ y, (fst y == t)%Q) (insert_keyed true x l)
    = filter (λ y, (fst y == t)%Q) (x :: l).
Proof.
  induction l as [|y l IH]; [done|]. cbn [insert_keyed].
  unfold float_lt. destruct (Qlt_le_dec x.1 y.1) as [Hlt|Hle]; [|done].
  destruct (decide (y.1 == t)%Q) as [Hy|Hy];
    destruct (decide (x.1 == t)%Q) as [Hx|Hx].
  - rewrite Hx, Hy in Hlt. by apply Qlt_irrefl in Hlt.
  - rewrite (filter_cons_True _ y) by done. rewrite IH.
    rewrite !(filter_cons_False _ x) by done.
    by rewrite (filter_cons_True _ y) by done.
  - rewrite (filter_cons_False _ y) by done. rewrite IH.
    rewrite !(filter_cons_True _ x) by done.
    by rewrite (filter_cons_False _ y) by done.
  - rewrite (filter_cons_False _ y) by done. rewrite IH.
    rewrite !(filter_cons_False _ x) by done.
    by rewrite (filter_cons_False _ y) by done.
Qed.

Lemma sort_keyed_stable (t : Q) l :
  filter (λ y, (fst y == t)%Q) (sort_keyed true l)
    = filter (λ y, (fst y == t)%Q) l.
Proof.
  induction l as [|x l IH]; [done|].
  change (sort_keyed true (x :: l)) with (insert_keyed true x (sort_keyed true l)).
  rewrite insert_keyed_stable.
  destruct (decide (x.1 == t)%Q).
  - rewrite !(filter_cons_True _ x) by done. by rewrite IH.
  - rewrite !(filter_cons_False _ x) by done. exact IH.
Qed.

(** A keyed list whose keys are the times of its paths is its paths, keyed. *)
Lemma keyed_by_paths (ctime : string → Q) l :
  Forall (λ x, fst x = ctime (snd x)) l →
  l = (λ p, (ctime p, p)) <$> (snd <$> l).
Proof.
  induction 1 as [|[t p] l Hx _ IH]; [done|]. cbn in *. by rewrite Hx, <- IH.
Qed.

Lemma filter_keyed_paths (ctime : string → Q) (t : Q) paths :
  filter (λ p, (ctime p == t)%Q) paths
    = snd <$> filter (λ y, (fst y == t)%Q) ((λ p, (ctime p, p)) <$> paths).
Proof.
  induction paths as [|p ps IH]; [done|]. rewrite fmap_cons.
  destruct (decide (ctime p == t)%Q).
  - rewrite filter_cons_True by done.
    rewrite (filter_cons_True (λ y, (fst y == t)%Q)) by done.
    by rewrite fmap_cons, IH.
  - rewrite filter_cons_False by done.
    by rewrite (filter_cons_False (λ y, (fst y == t)%Q)) by done.
Qed.

(** The sort of the model is the order [newest_first] describes. *)
Lemma sort_keyed_newest_first (ctime : string → Q) paths :
  let sorted := snd <$> sort_keyed true ((λ p, (ctime p, p)) <$> paths) in
  sort_keyed true ((λ p, (ctime p, p)) <$> paths)
    = (λ p, (ctime p, p)) <$> sorted ∧
  newest_first ctime paths sorted.
Proof.
  intros sorted.
  assert (sort_keyed true ((λ p, (ctime p, p)) <$> paths)
          = (λ p, (ctime p, p)) <$> sorted) as Hkeyed.
  { apply keyed_by_paths. rewrite (sort_keyed_perm true).
    apply Forall_fmap, Forall_forall. by intros p _. }
  split; [exact Hkeyed|]. split.
  - rewrite <- Hkeyed. apply sort_keyed_descending.
  - intros t. rewrite !filter_keyed_paths, <- Hkeyed.
    by rewrite sort_keyed_stable.
Qed.

Lemma descending_head_ge (ctime : string → Q) (x : string)
    (s : list string) (y : string) :
  descending ((λ p, (ctime p, p)) <$> x :: s) → y ∈ s →
  (ctime y <= ctime x)%Q.
Proof.
  rewrite fmap_cons. intros [Hx _] Hy. rewrite Forall_forall in Hx.
  apply (Hx (ctime y, y)). by apply (list_elem_of_fmap_2 (λ p, (ctime p, p))).
Qed.

(** [newest_first] describes one list. *)
Lemma newest_first_unique (ctime : string → Q) paths (s1 s2 : list string) :
  newest_first ctime paths s1 → newest_first ctime paths s2 → s1 = s2.
Proof.
  intros [Hd1 Hf1] [Hd2 Hf2].
  assert (∀ t, filter (λ p, (ctime p == t)%Q) s1
               = filter (λ p, (ctime p == t)%Q) s2) as Hf
    by (intros t; by rewrite Hf1, Hf2).
  clear Hf1 Hf2. revert s2 Hd2 Hf.
  induction s1 as [|x s1 IH]; intros [|y s2] Hd2 Hf; [done|..].
  - specialize (Hf (ctime y)).
    rewrite (filter_cons_True _ y) in Hf by apply Qeq_refl. done.
  - specialize (Hf (ctime x)).
    rewrite (filter_cons_True _ x) in Hf by apply Qeq_refl. done.
  - assert (x = y) as <-.
    { destruct (decide (ctime y == ctime x)%Q) as [Heq|Hne].
      - specialize (Hf (ctime x)).
        rewrite (filter_cons_True _ x) in Hf by apply Qeq_refl.
        rewrite (filter_cons_True _ y) in Hf by done.
        by injection Hf.
      - exfalso. apply Hne. apply Qle_antisym.
        + pose proof (Hf (ctime y)) as Hy.
          rewrite (filter_cons_True _ y) in Hy by apply Qeq_refl.
          assert (y ∈ filter (λ p, (ctime p == ctime y)%Q) (x :: s1)) as Hin
            by (rewrite Hy; apply list_elem_of_here).
          apply list_elem_of_filter in Hin as [_ Hin].
          apply elem_of_cons in Hin as [->|Hin];
            [destruct Hne; apply Qeq_refl|].
          by apply (descending_head_ge ctime x s1).
        + pose proof (Hf (ctime x)) as Hx.
          rewrite (filter_cons_True _ x) in Hx by apply Qeq_refl.
          assert (x ∈ filter (λ p, (ctime p == ctime x)%Q) (y :: s2)) as Hin
            by (rewrite <- Hx; apply list_elem_of_here).
          apply list_elem_of_filter in Hin as [_ Hin].
          apply elem_of_cons in Hin as [->|Hin];
            [destruct Hne; apply Qeq_refl|].
          by apply (descending_head_ge ctime y s2). }
    f_equal. rewrite !fmap_cons in Hd1, Hd2.
    apply IH; [by destruct Hd1|by destruct Hd2|].
    intros t. specialize (Hf t). destruct (decide (ctime x == t)%Q).
    + rewrite !(filter_cons_True _ x) in Hf by done. by injection Hf.
    + by rewrite !(filter_cons_False _ x) in Hf by done.
Qed.

(** X18.  When every candidate (an entry of the builds directory that is not
    excluded) can be read and removed, [remove_stale_builds] returns, and what
    it removes is exactly the tail of the candidates sorted from the most to
    the least recently changed, candidates changed at the same time staying
    in directory order (there is one such list): with [keep_builds >= 0] all
    but the first [keep_builds] of the sorted candidates, with a negative
    [keep_builds] its last [-keep_builds] ones, in that order.  Every
    candidate it keeps was changed no earlier than every one it removes, and
    it logs exactly when it removed something. *)
Theorem stale_builds_keep_newest (fs : BuildsDir)
    (exclude_paths : list string) (keep_builds : Z) (ctime : string → Q) :
  let existing := filter (λ p, p ∉ exclude_paths) (glob fs) in
  let run := remove_stale_builds fs exclude_paths keep_builds in
  Forall (λ p, st_ctime fs p = Return (ctime p)) existing →
  Forall (λ p, rmtree fs p = None) existing →
  ∃ sorted,
    newest_first ctime existing sorted ∧
    (∀ sorted', newest_first ctime existing sorted' → sorted' = sorted) ∧
    sorted ≡ₚ existing ∧
    stale_outcome run = Return tt ∧
    (0 ≤ keep_builds →
       removed run = drop (Z.to_nat keep_builds) sorted ∧
       length (removed run)
         = (length existing - Z.to_nat keep_builds)%nat) ∧
    (keep_builds < 0 →
       removed run
         = drop (length sorted - Z.to_nat (- keep_builds)) sorted ∧
       length (removed run)
         = (length existing `min` Z.to_nat (- keep_builds))%nat) ∧
    (∀ p q,
       p ∈ removed run → q ∈ existing → q ∉ removed run →
       (ctime p <= ctime q)%Q) ∧
    (logged run = None ↔ removed run = []).
Proof.
  intros existing run Hstat Hrm.
  pose proof (stat_all_keys _ ctime _ Hstat) as Hkeyed.
  destruct (sort_keyed_newest_first ctime existing) as [Hsk Hnf].
  set (sorted := snd <$> sort_keyed true ((λ p, (ctime p, p)) <$> existing))
    in *.
  assert (sorted ≡ₚ existing) as Hperm.
  { subst sorted. rewrite (sort_keyed_perm true), <- list_fmap_compose.
    by rewrite list_fmap_id. }
  destruct (slice_from_drop keep_builds sorted) as (n & Hn & Hpos & Hneg).
  assert (Forall (λ p, rmtree fs p = None) (drop n sorted)) as Hrm'.
  { apply Forall_forall. intros p Hp%elem_of_drop_in.
    rewrite Hperm in Hp. rewrite Forall_forall in Hrm. by apply Hrm. }
  destruct (remove_loop_all (rmtree fs) _ "" [] Hrm') as (b & Hloop & Hlen).
  assert (run = mkStaleRun (Return tt) (drop n sorted)
                  (if decide (b = "") then None else Some b)) as Hrun.
  { subst run. unfold remove_stale_builds, sort_paths_by_last_status_change.
    fold existing. rewrite Hkeyed. fold sorted. rewrite Hn, Hloop. done. }
  rewrite Hrun. cbn [stale_outcome removed logged].
  assert (length sorted = length existing) as Hlength by by rewrite Hperm.
  exists sorted. split; [exact Hnf|]. split.
  { intros sorted' Hnf'. by apply (newest_first_unique ctime existing). }
  split; [exact Hperm|]. split; [done|]. split; [|split; [|split]].
  - intros Hk. rewrite (Hpos Hk). split; [done|].
    by rewrite length_drop, Hlength.
  - intros Hk. rewrite (Hneg Hk). split; [done|].
    rewrite length_drop, Hlength. lia.
  - intros p q Hp Hq Hnq. rewrite <- Hperm in Hq.
    destruct Hnf as [Hdesc _].
    assert ((ctime p, p) ∈ drop n ((λ p, (ctime p, p)) <$> sorted)) as Hp'
      by (rewrite <- fmap_drop; apply list_elem_of_fmap; by exists p).
    assert ((ctime q, q) ∈ take n ((λ p, (ctime p, p)) <$> sorted)) as Hq'.
    { rewrite <- fmap_take. apply list_elem_of_fmap. exists q.
      split; [done|]. rewrite <- (take_drop n sorted) in Hq.
      by apply elem_of_app in Hq as [Hq|Hq]. }
    exact (descending_cut _ n _ _ Hdesc Hq' Hp').
  - cbn [app length] in Hlen. destruct (drop n sorted) as [|p l] eqn:Hd.
    + rewrite ?Hd in Hloop. cbn in Hloop. injection Hloop as <-. done.
    + rewrite ?Hd in Hlen. cbn [length] in Hlen.
      destruct (decide (b = "")) as [->|]; [cbn in Hlen; lia|]. done.
Qed.

Lemma stale_builds_keep_newest_sample :
  removed (remove_stale_builds builds_dir_tie [] 2) = ["b"] ∧
  ∃ sorted,
    newest_first ctime_tie (glob builds_dir_tie) sorted ∧
    removed (remove_stale_builds builds_dir_tie [] 2) = drop 2 sorted.
Proof.
  split; [reflexivity|].
  destruct (stale_builds_keep_newest builds_dir_tie [] 2 ctime_tie)
    as (sorted & Hnf & _ & _ & _ & Hpos & _).
  - vm_compute. by repeat constructor.
  - vm_compute. by repeat constructor.
  - exists sorted. split; [exact Hnf|]. by destruct Hpos.
Defined.

End StaleBuilds.

(** * Dotenv files *)

Section Dotenv.

Implicit Types (s a b p q : string) (c : Ascii.ascii).

Lemma app_String c a b : String c a +:+ b = String c (a +:+ b).
Proof. reflexivity. Qed.

Lemma app_empty b : "" +:+ b = b.
Proof. reflexivity. Qed.

Lemma app_assoc_string a b s : (a +:+ b) +:+ s = a +:+ (b +:+ s).
Proof.
  induction a as [|c a IH]; [done|]. rewrite !app_String. by rewrite IH.
Qed.

Lemma strip_prefix_spec p s r : Str.strip_prefix p s = Some r → s = p +:+ r.
Proof.
  revert s. induction p as [|a p IH]; intros s; cbn.
  - by intros [= ->].
  - destruct s as [|b s]; [done|].
    destruct (Ascii.eqb a b) eqn:Hab; [|done].
    apply Ascii.eqb_eq in Hab as ->. intros Hr%IH. by rewrite Hr.
Qed.

Lemma strip_prefix_app p r : Str.strip_prefix p (p +:+ r) = Some r.
Proof.
  induction p as [|a p IH]; [done|]. rewrite app_String. cbn.
  by rewrite Ascii.eqb_refl.
Qed.

Lemma occurs_app c a b :
  Str.occurs c (a +:+ b) = Str.occurs c a || Str.occurs c b.
Proof.
  induction a as [|x a IH]; [done|]. rewrite app_String. cbn.
  by rewrite IH, orb_assoc.
Qed.

Lemma split_once_None c s :
  Str.split_once c s = None ↔ Str.occurs c s = false.
Proof.
  induction s as [|b s IH]; [done|]. cbn.
  destruct (Ascii.eqb b c); [done|]. cbn. rewrite <- IH.
  by destruct (Str.split_once c s) as [[l r]|].
Qed.

Lemma split_once_first c a r :
  Str.occurs c a = false →
  Str.split_once c (a +:+ String c r) = Some (a, r).
Proof.
  induction a as [|b a IH].
  - intros _. rewrite app_empty. cbn [Str.split_once].
    by rewrite Ascii.eqb_refl.
  - rewrite app_String. cbn [Str.split_once Str.occurs].
    destruct (Ascii.eqb b c); [done|].
    cbn [orb]. intros Ha. by rewrite IH.
Qed.

Lemma lstrip_nonspace c s :
  Str.is_space c = false → Str.lstrip (String c s) = String c s.
Proof. intros Hc. cbn [Str.lstrip]. by rewrite Hc. Qed.

Lemma rstrip_snoc c a :
  Str.is_space c = false → Str.rstrip (a +:+ String c "") = a +:+ String c "".
Proof.
  intros Hc. induction a as [|b a IH].
  - rewrite app_empty. cbn [Str.rstrip]. by rewrite Hc.
  - rewrite app_String. cbn [Str.rstrip]. rewrite IH. by destruct a.
Qed.

Lemma strip_suffix_snoc c a :
  Str.strip_suffix (String c "") (a +:+ String c "") = Some a.
Proof.
  induction a as [|b a IH].
  - rewrite app_empty. cbn [Str.strip_suffix String.eqb].
    by rewrite Ascii.eqb_refl.
  - rewrite app_String.
    change (Str.strip_suffix (String c "") (String b (a +:+ String c "")))
      with (if String.eqb (String b (a +:+ String c "")) (String c "")
            then Some EmptyString
            else String b <$> Str.strip_suffix (String c "") (a +:+ String c "")).
    rewrite IH.
    replace (String.eqb (String b (a +:+ String c "")) (String c ""))
      with false; [done|].
    cbn [String.eqb]. destruct (Ascii.eqb b c); [|done]. by destruct a.
Qed.

Lemma dotenv_loop_app l1 l2 environ :
  dotenv_loop (l1 ++ l2) environ =
    match dotenv_loop l1 environ with
    | Return m => dotenv_loop l2 m
    | Raise e => Raise e
    end.
Proof.
  revert environ. induction l1 as [|x l1 IH]; intros environ; [done|].
  cbn. destruct (dotenv_entry x) as [[[n v]|]|e]; [apply IH..|done].
Qed.

(** The lines that are skipped. *)
Lemma dotenv_entry_skipped line_raw :
  dotenv_entry line_raw = Return None ↔
  Str.strip line_raw = "" ∨ Str.startswith "#" (Str.strip line_raw) = true.
Proof.
  unfold dotenv_entry. destruct (decide (Str.strip line_raw = "")) as [->|Hne].
  - split; [by left|done].
  - destruct (Str.startswith "#" (Str.strip line_raw)).
    + split; [by right|done].
    + split.
      * by destruct (Str.split_once _ _) as [[n v]|].
      * by intros [?|?].
Qed.

(** X19.  Blank lines and comment lines (those that, stripped, are empty or
    begin with a hash sign) have no effect: a dotenv file reads the same with
    and without them. *)
Theorem dotenv_ignores_comments (l1 l2 : list string) (line : string) :
  Str.strip line = "" ∨ Str.startswith "#" (Str.strip line) = true →
  get_environ_from_dotenv (l1 ++ line :: l2) = get_environ_from_dotenv (l1 ++ l2).
Proof.
  intros Hskip%dotenv_entry_skipped. unfold get_environ_from_dotenv.
  rewrite !dotenv_loop_app. destruct (dotenv_loop l1 ∅) as [m|e]; [|done].
  cbn. by rewrite Hskip.
Qed.

Lemma dotenv_ignores_comments_sample :
  get_environ_from_dotenv ["A=1"; "  # the port"; "PORT=8000"]
    = get_environ_from_dotenv ["A=1"; "PORT=8000"].
Proof.
  apply (dotenv_ignores_comments ["A=1"] ["PORT=8000"] "  # the port").
  by right.
Defined.

Lemma removeprefix_occurs p s c :
  Str.occurs c p = false →
  Str.occurs c (Str.removeprefix p s) = Str.occurs c s.
Proof.
  intros Hp. unfold Str.removeprefix.
  destruct (Str.strip_prefix p s) as [r|] eqn:Hr; [|done]. cbn.
  apply strip_prefix_spec in Hr as ->. by rewrite occurs_app, Hp.
Qed.

(** Which lines raise. *)
Lemma dotenv_entry_returns line_raw :
  (∃ r, dotenv_entry line_raw = Return r) ↔
  Str.strip line_raw = "" ∨ Str.startswith "#" (Str.strip line_raw) = true ∨
  Str.occurs Str.equals (Str.strip line_raw) = true.
Proof.
  unfold dotenv_entry. destruct (decide (Str.strip line_raw = "")) as [->|Hne].
  - split; [by left|by eexists].
  - destruct (Str.startswith "#" (Str.strip line_raw)).
    + split; [right; by left|by eexists].
    + pose proof (split_once_None Str.equals
        (Str.removeprefix "export " (Str.strip line_raw))) as Hsplit.
      rewrite (removeprefix_occurs "export ") in Hsplit by done.
      destruct (Str.split_once _ _) as [[n v]|].
      * split; [|by eexists]. intros _. right. right.
        destruct (Str.occurs _ _); [done|]. by pose proof (proj2 Hsplit eq_refl).
      * split; [by intros [r ?]|]. intros [?|[?|Ho]]; [done..|].
        rewrite (proj1 Hsplit eq_refl) in Ho. done.
Qed.

(** X20.  [get_environ_from_dotenv] returns a dictionary exactly when every
    line that is neither blank nor a comment contains an equals sign; a file
    with any other line makes it raise, and [ValueError] is the only
    exception it raises. *)
Theorem dotenv_raises_without_equals (lines : list string) :
  ((∃ m, get_environ_from_dotenv lines = Return m) ↔
   Forall (λ line,
             Str.strip line = "" ∨
             Str.startswith "#" (Str.strip line) = true ∨
             Str.occurs Str.equals (Str.strip line) = true) lines) ∧
  (∀ e, get_environ_from_dotenv lines = Raise e → e = OtherError "ValueError").
Proof.
  unfold get_environ_from_dotenv. generalize (∅ : gmap string string).
  induction lines as [|x lines IH]; intros environ.
  - split; [|done]. split; [by constructor|by eexists].
  - cbn [dotenv_loop]. pose proof (dotenv_entry_returns x) as Hx.
    destruct (dotenv_entry x) as [[[n v]|]|e] eqn:Hentry.
    + destruct (IH (<[n:=v]> environ)) as [IH1 IH2]. split; [|exact IH2].
      rewrite IH1. split.
      * intros Hall. constructor; [|done]. apply Hx. by eexists.
      * by intros [_ ?]%Forall_cons.
    + destruct (IH environ) as [IH1 IH2]. split; [|exact IH2].
      rewrite IH1. split.
      * intros Hall. constructor; [|done]. apply Hx. by eexists.
      * by intros [_ ?]%Forall_cons.
    + split.
      * split; [by intros [m ?]|]. intros [[r Hr]%Hx _]%Forall_cons. done.
      * intros e' [= <-]. revert Hentry. unfold dotenv_entry.
        destruct (decide _); [done|]. destruct (Str.startswith _ _); [done|].
        destruct (Str.split_once _ _) as [[n' v']|]; [done|]. by intros [= <-].
Qed.

Lemma dotenv_raises_without_equals_sample :
  get_environ_from_dotenv ["PORT=8000"; "DEBUG"] = Raise (OtherError "ValueError").
Proof.
  destruct (dotenv_raises_without_equals ["PORT=8000"; "DEBUG"]) as [_ Hraise].
  destruct (get_environ_from_dotenv ["PORT=8000"; "DEBUG"]) as [m|e] eqn:Hrun;
    [|by rewrite (Hraise e eq_refl)].
  vm_compute in Hrun. discriminate.
Defined.

Lemma startswith_app p r : Str.startswith p (p +:+ r) = true.
Proof.
  unfold Str.startswith. rewrite strip_prefix_app. by apply bool_decide_true.
Qed.

Lemma removeprefix_app p r : Str.removeprefix p (p +:+ r) = r.
Proof. unfold Str.removeprefix. by rewrite strip_prefix_app. Qed.

Lemma endswith_dquote a b : Str.endswith Str.dquote (a +:+ b +:+ Str.dquote) = true.
Proof.
  unfold Str.endswith. rewrite <- app_assoc_string. unfold Str.dquote.
  rewrite strip_suffix_snoc. by apply bool_decide_true.
Qed.

Lemma removesuffix_dquote a : Str.removesuffix Str.dquote (a +:+ Str.dquote) = a.
Proof.
  unfold Str.removesuffix, Str.dquote. by rewrite strip_suffix_snoc.
Qed.

(** An exported, quoted assignment reads as the name and the value. *)
Lemma dotenv_entry_export name value :
  Str.occurs Str.equals name = false →
  dotenv_entry ("export " +:+ name +:+ "=" +:+ Str.dquote +:+ value +:+ Str.dquote)
    = Return (Some (name, value)).
Proof.
  intros Hname.
  set (rest := name +:+ "=" +:+ Str.dquote +:+ value +:+ Str.dquote).
  assert (Str.strip ("export " +:+ rest) = "export " +:+ rest) as Hstrip.
  { unfold Str.strip. rewrite app_String, lstrip_nonspace by reflexivity.
    rewrite <- app_String. subst rest.
    rewrite <- !app_assoc_string. unfold Str.dquote at 2.
    apply rstrip_snoc. reflexivity. }
  unfold dotenv_entry. rewrite Hstrip.
  rewrite decide_False by (by rewrite !app_String).
  replace (Str.startswith "#" ("export " +:+ rest)) with false
    by (by rewrite !app_String).
  rewrite removeprefix_app. subst rest.
  change ("=" +:+ ?x) with (String Str.equals x).
  rewrite split_once_first by done.
  rewrite startswith_app, endswith_dquote, removeprefix_app.
  cbn [andb]. by rewrite removesuffix_dquote.
Qed.

(** X21.  A last line [export NAME="VALUE"] makes the dictionary map [NAME]
    to exactly [VALUE], whatever an earlier line assigned to [NAME], and
    leaves the other names as the lines before it set them.  [NAME] is any
    string without an equals sign and [VALUE] any string at all (spaces,
    equals signs, hash signs and quotes included) that the line, as
    [splitlines] yields it, holds between the two outer quotes. *)
Theorem dotenv_reads_back_export (lines : list string)
    (m : gmap string string) (name value : string) :
  Str.occurs Str.equals name = false →
  get_environ_from_dotenv lines = Return m →
  get_environ_from_dotenv
    (lines ++ ["export " +:+ name +:+ "=" +:+ Str.dquote +:+ value
                 +:+ Str.dquote])
    = Return (<[name := value]> m).
Proof.
  intros Hname Hm. unfold get_environ_from_dotenv in *.
  rewrite dotenv_loop_app, Hm. cbn [dotenv_loop].
  by rewrite dotenv_entry_export.
Qed.

Lemma dotenv_reads_back_export_sample :
  get_environ_from_dotenv
    (["PORT=8000"; "KEY=old"] ++
     ["export " +:+ "KEY" +:+ "=" +:+ Str.dquote +:+ " a=b # c " +:+ Str.dquote])
    = Return (<["KEY" := " a=b # c "]>
                ({[ "PORT" := "8000"; "KEY" := "old" ]} : gmap string string)).
Proof.
  apply (dotenv_reads_back_export ["PORT=8000"; "KEY=old"]
           {[ "PORT" := "8000"; "KEY" := "old" ]} "KEY" " a=b # c ").
  - reflexivity.
  - vm_compute. reflexivity.
Defined.

End Dotenv.
